(** * Patent search with title verification: a shallow embedding

    The development follows the four Python modules of the repository:
    - [config.py]             : the constants and [Config.get_output_path];
    - [title_verification.py] : [TitleVerifier] (title fetch with retries,
                                similarity score, title heuristics, store);
    - [patent_search.py]      : the searcher, whose answer is an input here;
    - [main.py]               : [run_patent_search].

    Python [str] values are sequences of Unicode code points and are modelled
    as [list Z].  Network, clock and file system are an explicit [World]
    threaded through the effectful functions; the answers of the network
    and the failures of the file system are parameters of the model. *)

From Stdlib Require Import ZArith QArith List String Ascii Lia Bool.
From stdpp Require Import base gmap list.

Local Open Scope Z_scope.

(** ** Python strings *)

Abbreviation pystr := (list Z).

(** A literal of the source, given as an ASCII string. *)
Definition str (s : string) : pystr :=
  List.map (fun a => Z.of_N (N_of_ascii a)) (list_ascii_of_string s).

(** [s.startswith(pre)] *)
Fixpoint startswith (s pre : pystr) {struct pre} : bool :=
  match pre with
  | [] => true
  | p :: pre' =>
      match s with
      | [] => false
      | c :: s' => (c =? p) && startswith s' pre'
      end
  end.

(** [s.count(ch)] for a one-character [ch]. *)
Fixpoint count (ch : Z) (s : pystr) : Z :=
  match s with
  | [] => 0
  | c :: s' => (if c =? ch then 1 else 0) + count ch s'
  end.

(** [len(s)] *)
Definition len (s : pystr) : Z := Z.of_nat (List.length s).

(** [str.isspace] on one code point: the white space table of CPython. *)
Definition isspace (c : Z) : bool :=
  ((9 <=? c) && (c <=? 13)) || ((28 <=? c) && (c <=? 32))
  || (c =? 133) || (c =? 160) || (c =? 5760)
  || ((8192 <=? c) && (c <=? 8202))
  || (c =? 8232) || (c =? 8233) || (c =? 8239) || (c =? 8287) || (c =? 12288).

(** [s.lstrip()], [s.rstrip()], [s.strip()] *)
Fixpoint lstrip (s : pystr) : pystr :=
  match s with
  | [] => []
  | c :: s' => if isspace c then lstrip s' else s
  end.

Definition rstrip (s : pystr) : pystr := rev (lstrip (rev s)).

Definition strip (s : pystr) : pystr := rstrip (lstrip s).

(** [s.split(sep)[0]] for a non-empty [sep]: the part before the first
    occurrence of [sep], the whole of [s] when there is none. *)
Fixpoint split_head (sep s : pystr) : pystr :=
  match s with
  | [] => []
  | c :: s' => if startswith s sep then [] else c :: split_head sep s'
  end.

(** [s.replace(old, "")] for a non-empty [old]: occurrences are removed from
    left to right, without overlap.  [skip] counts the characters of the
    occurrence being removed that are still ahead. *)
Fixpoint remove_from (old : pystr) (skip : nat) (s : pystr) : pystr :=
  match s with
  | [] => []
  | c :: s' =>
      match skip with
      | S k => remove_from old k s'
      | O =>
          if startswith s old
          then remove_from old (Nat.pred (List.length old)) s'
          else c :: remove_from old O s'
      end
  end.

Definition remove_all (old s : pystr) : pystr := remove_from old O s.

(** [s.replace(' ', '_')]: one character for another. *)
Definition replace_char (old new : Z) (s : pystr) : pystr :=
  List.map (fun c => if c =? old then new else c) s.

(** [os.path.join(a, b)] on POSIX. *)
Definition path_join (a b : pystr) : pystr :=
  if startswith b [47] then b
  else match rev a with
       | [] => b
       | c :: _ => if c =? 47 then a ++ b else a ++ 47 :: b
       end.

Definition is_ascii_upper (c : Z) : bool := (65 <=? c) && (c <=? 90).
Definition is_ascii_lower (c : Z) : bool := (97 <=? c) && (c <=? 122).
Definition is_ascii_digit (c : Z) : bool := (48 <=? c) && (c <=? 57).

(** ** difflib.SequenceMatcher

    [_calculate_similarity] builds [SequenceMatcher(None, a, b)] and reads
    its [ratio()]: no junk predicate, [autojunk] left at its default.  The
    class is part of the interpreter's library; the algorithm of its methods
    is followed here, indices being Python integers. *)

Module SequenceMatcher.

(** [Match(a, b, size)] *)
Record Match := mkMatch { m_a : Z; m_b : Z; m_size : Z }.

(** [s[i]], for the indices the class uses (never negative, in range). *)
Definition item (s : pystr) (i : Z) : Z := nth (Z.to_nat i) s 0.

Fixpoint indices (elt : Z) (i : Z) (b : pystr) : list Z :=
  match b with
  | [] => []
  | c :: b' => (if c =? elt then [i] else []) ++ indices elt (i + 1) b'
  end.

(** [__chain_b]: [b2j] maps an element of [b] to the ascending list of its
    positions.  Without a junk predicate only the popular elements are
    purged: when [len(b) >= 200], those with more than [len(b) // 100 + 1]
    occurrences.  [b2j.get(elt, [])] is the function below. *)
Definition b2j (b : pystr) (elt : Z) : list Z :=
  let idxs := indices elt 0 b in
  let n := len b in
  if (n >=? 200) && (len idxs >? n / 100 + 1) then [] else idxs.

(** The inner loop of [find_longest_match], over the positions [j] of
    [a[i]] in [b]; [j2len] is the dictionary of the previous row. *)
Fixpoint scan_row (i blo bhi : Z) (j2len : gmap Z Z) (js : list Z)
    (best : Match) (newj2len : gmap Z Z) : Match * gmap Z Z :=
  match js with
  | [] => (best, newj2len)
  | j :: js' =>
      if j <? blo then scan_row i blo bhi j2len js' best newj2len
      else if j >=? bhi then (best, newj2len)
      else
        let k := default 0 (j2len !! (j - 1)) + 1 in
        let best' :=
          if k >? m_size best then mkMatch (i - k + 1) (j - k + 1) k
          else best in
        scan_row i blo bhi j2len js' best' (<[j := k]> newj2len)
  end.

(** The outer loop, [for i in range(alo, ahi)], with [n] rows to go. *)
Fixpoint scan_rows (a b : pystr) (blo bhi : Z) (n : nat) (i : Z)
    (j2len : gmap Z Z) (best : Match) : Match :=
  match n with
  | O => best
  | S n' =>
      let '(best', newj2len) :=
        scan_row i blo bhi j2len (b2j b (item a i)) best ∅ in
      scan_rows a b blo bhi n' (i + 1) newj2len best'
  end.

(** The two [while] loops that extend the block at both ends.  The junk
    set is empty, so the conditions on [isbjunk] are constant and the
    second pair of loops never runs.  [fuel] is the distance to the bound
    the condition tests first. *)
Fixpoint extend_left (a b : pystr) (alo blo : Z) (fuel : nat) (m : Match)
    : Match :=
  match fuel with
  | O => m
  | S fuel' =>
      if (m_a m >? alo) && (m_b m >? blo)
         && (item a (m_a m - 1) =? item b (m_b m - 1))
      then extend_left a b alo blo fuel'
             (mkMatch (m_a m - 1) (m_b m - 1) (m_size m + 1))
      else m
  end.

Fixpoint extend_right (a b : pystr) (ahi bhi : Z) (fuel : nat) (m : Match)
    : Match :=
  match fuel with
  | O => m
  | S fuel' =>
      if (m_a m + m_size m <? ahi) && (m_b m + m_size m <? bhi)
         && (item a (m_a m + m_size m) =? item b (m_b m + m_size m))
      then extend_right a b ahi bhi fuel'
             (mkMatch (m_a m) (m_b m) (m_size m + 1))
      else m
  end.

(** [find_longest_match(alo, ahi, blo, bhi)] *)
Definition find_longest_match (a b : pystr) (alo ahi blo bhi : Z) : Match :=
  let best :=
    scan_rows a b blo bhi (Z.to_nat (ahi - alo)) alo ∅ (mkMatch alo blo 0) in
  let best := extend_left a b alo blo (Z.to_nat (m_a best - alo)) best in
  extend_right a b ahi bhi (Z.to_nat (ahi - (m_a best + m_size best))) best.

(** The work list of [get_matching_blocks]: [queue.pop()] takes the range
    pushed last, the head of the list here. *)
Fixpoint blocks_loop (a b : pystr) (fuel : nat)
    (queue : list (Z * Z * Z * Z)) (matching_blocks : list Match)
    : option (list Match) :=
  match queue with
  | [] => Some matching_blocks
  | (alo, ahi, blo, bhi) :: queue' =>
      match fuel with
      | O => None
      | S fuel' =>
          let x := find_longest_match a b alo ahi blo bhi in
          let i := m_a x in
          let j := m_b x in
          let k := m_size x in
          if k =? 0 then blocks_loop a b fuel' queue' matching_blocks
          else
            let q1 :=
              if (alo <? i) && (blo <? j)
              then (alo, i, blo, j) :: queue' else queue' in
            let q2 :=
              if (i + k <? ahi) && (j + k <? bhi)
              then (i + k, ahi, j + k, bhi) :: q1 else q1 in
            blocks_loop a b fuel' q2 (matching_blocks ++ [x])
      end
  end.

(** Every turn of the loop lowers the sum, over the queue, of
    [2 * (ahi - alo) + 1]: [blocks_fuel] turns are enough (lemma
    [blocks_loop_terminates] below), and the default is never taken. *)
Definition blocks_fuel (a : pystr) : nat := Z.to_nat (2 * len a + 1).

(** The blocks found by [get_matching_blocks].  The method then sorts
    them, merges adjacent ones and adds a last block of size 0, none of
    which changes the sum of sizes, all that [ratio] reads. *)
Definition get_matching_blocks (a b : pystr) : list Match :=
  default [] (blocks_loop a b (blocks_fuel a) [(0, len a, 0, len b)] []).

Definition matches (a b : pystr) : Z :=
  fold_right Z.add 0 (List.map m_size (get_matching_blocks a b)).

(** [ratio()]: [2.0 * matches / length], and [1.0] when both are empty.
    The quotient is kept exact.  The float of the source is the double
    nearest to it: for strings of fewer than 2^25 characters, equal quotients
    are equal floats, different quotients different floats, and the test
    against the float [0.8] has the answer of the test against 8/10. *)
Definition ratio (a b : pystr) : Q :=
  let length := len a + len b in
  if length =? 0 then 1%Q else (2 * matches a b # Z.to_pos length)%Q.

End SequenceMatcher.

(** ** config.py: the constants of [Config] *)

Module Config.
Definition MAX_PATENTS : Z := 20.
Definition SIMILARITY_THRESHOLD : Q := 8 # 10.
Definition REQUEST_TIMEOUT : Z := 15.
Definition REQUEST_DELAY : Z := 2.
Definition MAX_RETRIES : nat := 3.
Definition RESULTS_DIR : pystr := str "results".
End Config.

(** ** Data *)

(** A JSON value where the code needs a string: the string, or anything else
    ([null], a number, a list, an object). *)
Inductive jvalue :=
  | JStr (s : pystr)
  | JOther.

(** One element of the list the searcher returns, as [verify_patents] reads
    it: [patent.get('patent_id', '')], [patent.get('title', '')] and
    [patent.get('relevancy', '')] of an object, or an element that is not an
    object and has no [get].  The answer of the language model is parsed
    JSON that nothing validates, hence [jvalue] for the claimed title, the
    field on which a string method is called. *)
Inductive candidate :=
  | Patent (patent_id : pystr) (title : jvalue) (relevancy : pystr)
  | NotADict.

(** The dictionary [verified_patent] built by [verify_patents]. *)
Record VerifiedPatent := mkVerified {
  patent_id : pystr;
  title : pystr;
  relevancy : pystr;
  similarity_score : Q;
  verified : bool;
  language_note : option pystr
}.

(** What [json.load] makes of a result file. *)
Inductive file :=
  | NotJson
    (* [JSONDecodeError] *)
  | ResultJson (compound : pystr) (verified_patents : list VerifiedPatent)
    (* [{"compound": ..., "verified_patents": [...]}] *)
  | OtherJson.
    (* valid JSON without a list of records under ["verified_patents"] *)

(** The page [BeautifulSoup] parsed, as far as the code looks at it: the
    text ([get_text(strip=True)]) of the first [<span itemprop="title">] and
    of the first [<h1 itemprop="pageTitle">], when there is one. *)
Record soup := mkSoup {
  span_title : option pystr;
  h1_pageTitle : option pystr
}.

(** The outcome of [session.get(url, timeout=...)] followed by the parser. *)
Inductive get_result :=
  | Response (status_code : Z) (content : soup)
  | BadContent (status_code : Z)
    (* a response whose body makes the parser raise *)
  | RequestException.
    (* time-out, connection error, ... raised by [session.get] *)

(** The exceptions the code lets reach a handler. *)
Inductive exn :=
  | ValueError
  | AttributeError
  | OSError.

(** The calls to the file system that can raise. *)
Inductive io_op :=
  | Makedirs
    (* [os.makedirs(compound_dir, exist_ok=True)] *)
  | OpenRead
    (* [open(output_path, 'r')], for a reason other than a missing file *)
  | OpenWrite
    (* [open(output_path, 'w')], before the file is touched *)
  | Write.
    (* writing and closing the file, once [open] has emptied it *)

(** The mutable world: the files under the results directory by path, the
    number of requests sent so far, and the arguments of the [time.sleep]
    calls made so far, oldest first. *)
Record World := mkWorld {
  fs : gmap pystr file;
  requests : nat;
  sleeps : list Z
}.

Definition sleep (d : Z) (w : World) : World :=
  mkWorld (fs w) (requests w) (sleeps w ++ [d]).

Definition count_request (w : World) : World :=
  mkWorld (fs w) (S (requests w)) (sleeps w).

Definition write_file (path : pystr) (f : file) (w : World) : World :=
  mkWorld (<[path := f]> (fs w)) (requests w) (sleeps w).

(** The dictionary [run_patent_search] returns. *)
Record RunResult := mkRun {
  run_compound : pystr;
  patents_found : Z;
  patents_verified : Z;
  run_verified_patents : list VerifiedPatent;
  success : bool;
  output_file : option pystr;
  message : option pystr;
  error : option exn
}.

(** ** Sample environments

    Values for the tables, the network and the searcher, on which the
    properties below are instantiated. *)

(** Lower-case table: outside ASCII every code point is its own lower case. *)
Definition no_unicode : pystr -> Z -> pystr -> pystr := fun _ c _ => [c].

(** Alphanumeric table: nothing outside ASCII is alphanumeric. *)
Definition no_alnum : Z -> bool := fun _ => false.

Definition world0 : World := mkWorld ∅ O [].

(** A server that answers every request with the same page. *)
Definition serve (page : soup) : pystr -> nat -> get_result :=
  fun _ _ => Response 200 page.

(** A server in trouble on the first request, without the page afterwards. *)
Definition unavailable_then_404 : pystr -> nat -> get_result :=
  fun _ n =>
    match n with
    | O => Response 503 (mkSoup None None)
    | S _ => Response 404 (mkSoup None None)
    end.

(** A network on which every request times out. *)
Definition unreachable : pystr -> nat -> get_result :=
  fun _ _ => RequestException.

Definition page_tide : soup := mkSoup (Some (str "tide")) None.


Definition record (pid : string) : VerifiedPatent :=
  mkVerified (str pid) (str "A title") (str "High") 1 true None.

Definition one_candidate : pystr -> list candidate :=
  fun _ => [Patent (str "US1234567A") (JStr (str "diet")) (str "High")].

Definition then_malformed : pystr -> list candidate :=
  fun _ => [Patent (str "US1") (JStr (str "tide")) (str "High"); NotADict].

Definition twice : pystr -> list candidate :=
  fun _ => [Patent (str "US1") (JStr (str "tide")) (str "High");
            Patent (str "US1") (JStr (str "diet")) (str "Medium")].



(** A world with a file that is not a result file of the run. *)
Definition world_notes : World :=
  mkWorld {[ str "notes.txt" := NotJson ]} O [].


(** A file system on which no call fails, and data that [json.dump] always
    writes. *)
Definition no_fault : World -> io_op -> pystr -> bool := fun _ _ _ => false.

Definition dump_fine : pystr -> list VerifiedPatent -> bool :=
  fun _ _ => false.




(** [json.dump(..., ensure_ascii=False)] into a file opened with
    [encoding='utf-8'] raises [UnicodeEncodeError] on a string with a
    surrogate code point; [json.loads] makes such a string of an escape like
    "\ud800" in the answer of the language model, and the decoding of the
    command line makes one of a byte that is not UTF-8. *)
Definition has_surrogate (s : pystr) : bool :=
  existsb (fun c => (0xd800 <=? c) && (c <=? 0xdfff)) s.

Definition surrogate_raises : pystr -> list VerifiedPatent -> bool :=
  fun compound records =>
    has_surrogate compound
    || existsb (fun r => has_surrogate (patent_id r)
                         || has_surrogate (title r)
                         || has_surrogate (relevancy r)) records.

(** A result file with one record. *)
Definition world_one_record : World :=
  mkWorld {[ str "results/X/verified_patents.json"
             := ResultJson (str "X") [record "US1"] ]} O [].

Section Unicode.

(** The Unicode character database is not reproduced.  Outside ASCII the
    lower-case mapping of a code point (a string: some mappings expand, and
    the capital sigma looks at its neighbours, given here as the reversed
    prefix and the suffix) and its alphanumeric class are taken from the
    tables the interpreter was built with. *)
Variable unicode_lower : pystr -> Z -> pystr -> pystr.
Variable unicode_isalnum : Z -> bool.

(** One code point of [s.lower()]. *)
Definition lower_char (before : pystr) (c : Z) (after : pystr) : pystr :=
  if is_ascii_upper c then [c + 32]
  else if (0 <=? c) && (c <? 128) then [c]
  else unicode_lower before c after.

Fixpoint lower_from (before s : pystr) : pystr :=
  match s with
  | [] => []
  | c :: s' => lower_char before c s' ++ lower_from (c :: before) s'
  end.

(** [s.lower()] *)
Definition lower (s : pystr) : pystr := lower_from [] s.

(** [c.isalnum()] *)
Definition isalnum (c : Z) : bool :=
  if (0 <=? c) && (c <? 128)
  then is_ascii_upper c || is_ascii_lower c || is_ascii_digit c
  else unicode_isalnum c.


(** The file system is not reproduced either.  [os_fault w op path] says
    that, in the world [w], the operating system refuses the call [op] on
    [path] with an [OSError] (a name that is too long, a missing permission,
    a full disk); [json_dump_raises compound records] says that [json.dump]
    raises on this data while it writes (with [ensure_ascii=False] into a
    UTF-8 file: a string with a lone surrogate). *)
Variable os_fault : World -> io_op -> pystr -> bool.
Variable json_dump_raises : pystr -> list VerifiedPatent -> bool.

(** [Config.get_output_path].  The name of the directory and the path are
    computed; [os.makedirs] creates the directory on the way (no file is
    touched) and can raise. *)
Definition safe_name (compound : pystr) : pystr :=
  replace_char 32 95
    (rstrip (List.filter
               (fun c => isalnum c || (c =? 32) || (c =? 45) || (c =? 95))
               compound)).

Definition output_dir (compound : pystr) : pystr :=
  path_join Config.RESULTS_DIR (safe_name compound).

Definition output_path (compound : pystr) : pystr :=
  path_join (output_dir compound) (str "verified_patents.json").

Definition get_output_path (compound : pystr) (w : World) : exn + pystr :=
  let compound_dir := output_dir compound in
  if os_fault w Makedirs compound_dir then inl OSError
  else inr (path_join compound_dir (str "verified_patents.json")).

(** ** title_verification.py: the pure helpers *)

(** [TitleVerifier._contains_non_english] *)
Fixpoint _contains_non_english (text : pystr) : bool :=
  match text with
  | [] => false
  | char :: rest =>
      if (0x4e00 <=? char) && (char <=? 0x9fff) then true
      else if (0x3040 <=? char) && (char <=? 0x30ff) then true
      else if (0xac00 <=? char) && (char <=? 0xd7af) then true
      else _contains_non_english rest
  end.

(** [TitleVerifier._is_valid_title] *)
Definition _is_valid_title (text : pystr) : bool :=
  match text with
  | [] => false
  | _ =>
      if startswith (lower text) (str "abstract") then false
      else if len text >? 300 then false
      else
        let sentence_count := count 46 text + count 33 text + count 63 text in
        if sentence_count >? 2 then false else true
  end.


(** [TitleVerifier._calculate_similarity] *)
Definition _calculate_similarity (title1 title2 : pystr) : Q :=
  let title1_norm := strip (lower title1) in
  let title2_norm := strip (lower title2) in
  SequenceMatcher.ratio title1_norm title2_norm.

(** ** The environment *)

(** [http_get url n]: what the [n]-th request of the run (from 0) gets when
    it is sent to [url]. *)
Variable http_get : pystr -> nat -> get_result.

(** The answer of [PatentSearcher.search_patents], which catches its own
    failures and then answers the empty list. *)
Variable search_patents : pystr -> list candidate.

(** [Config.OPENAI_API_KEY], read from the process environment. *)
Variable OPENAI_API_KEY : pystr.

(** ** title_verification.py: fetching a title *)

(** The clean-up of the heading:
    [full_title.split(' - Google Patents')[0]
       .replace(f"{patent_id} - ", "").strip()] *)
Definition clean_heading (patent_id full_title : pystr) : pystr :=
  strip (remove_all (patent_id ++ str " - ")
           (split_head (str " - Google Patents") full_title)).

(** The second half of the [try] body, from [# Fallback to h1 tag] on. *)
Definition heading_title (patent_id : pystr) (page : soup) : option pystr :=
  match h1_pageTitle page with
  | Some full_title =>
      let title := clean_heading patent_id full_title in
      if _is_valid_title title then Some title else None
  | None => None
  end.

(** The body of the [try] once the page is parsed. *)
Definition title_of_page (patent_id : pystr) (page : soup) : option pystr :=
  let fallback := heading_title patent_id page in
  match span_title page with
  | Some title => if _is_valid_title title then Some title else fallback
  | None => fallback
  end.

Definition patent_url (patent_id : pystr) : pystr :=
  str "https://patents.google.com/patent/" ++ patent_id ++ str "/en".

(** The [for attempt in range(Config.MAX_RETRIES)] loop, with [n] attempts
    to go. *)
Fixpoint attempts (patent_id : pystr) (n : nat) (attempt : nat) (w : World)
    : option pystr * World :=
  match n with
  | O => (None, w)
  | S n' =>
      let failed w :=
        let w :=
          if (Z.of_nat attempt <? Z.of_nat Config.MAX_RETRIES - 1)
          then sleep 1 w else w in
        attempts patent_id n' (S attempt) w in
      let response := http_get (patent_url patent_id) (requests w) in
      let w := count_request w in
      match response with
      | RequestException => failed w
      | BadContent status =>
          if (400 <=? status) && (status <? 600)
          then if status =? 404 then (None, w) else failed w
          else failed w
      | Response status page =>
          if (400 <=? status) && (status <? 600)
          then if status =? 404 then (None, w) else failed w
          else (title_of_page patent_id page, w)
      end
  end.

(** [TitleVerifier._get_patent_title] *)
Definition _get_patent_title (patent_id : pystr) (w : World)
    : option pystr * World :=
  attempts patent_id Config.MAX_RETRIES O w.

(** ** title_verification.py: the store *)

(** [TitleVerifier._save_verified_patent].  The outer [except Exception]
    only prints: an exception raised before the file is opened for writing
    leaves the file as it was.  [open(output_path, 'w')] empties the file;
    when [json.dump] or the write then raises, what is left is the beginning
    of a JSON text, which [json.load] rejects. *)
Definition _save_verified_patent (patent : VerifiedPatent)
    (compound : pystr) (w : World) : World :=
  match get_output_path compound w with
  | inl _ => w
  | inr output_path =>
      if os_fault w OpenRead output_path then w
      else
        let data :=
          match fs w !! output_path with
          | None | Some NotJson => Some (compound, [])
          | Some (ResultJson c l) => Some (c, l)
          | Some OtherJson => None
          end in
        match data with
        | None => w
        | Some (c, l) =>
            let existing_ids := List.map patent_id l in
            if decide (patent_id patent ∈ existing_ids) then w
            else if os_fault w OpenWrite output_path then w
            else if json_dump_raises c (l ++ [patent])
                    || os_fault w Write output_path
            then write_file output_path NotJson w
            else write_file output_path (ResultJson c (l ++ [patent])) w
        end
  end.

(** ** title_verification.py: the verification loop *)

Definition language_note_text : pystr :=
  str "Non-English title - similarity may be affected by language".

(** The record built for a candidate whose title was fetched. *)
Definition make_verified (patent_id claimed_title relevancy actual_title
    : pystr) : VerifiedPatent :=
  let similarity := _calculate_similarity claimed_title actual_title in
  let is_non_english := _contains_non_english actual_title in
  mkVerified patent_id actual_title relevancy similarity
    (Qle_bool Config.SIMILARITY_THRESHOLD similarity)
    (if is_non_english then Some language_note_text else None).

(** The [for i, patent in enumerate(patents)] loop of [verify_patents];
    [total] is [len(patents)].  An exception leaves the loop and the
    function. *)
Fixpoint verify_loop (compound : pystr) (total : Z) (i : Z)
    (patents : list candidate) (verified_patents : list VerifiedPatent)
    (w : World) : (exn + list VerifiedPatent) * World :=
  match patents with
  | [] => (inr verified_patents, w)
  | NotADict :: _ => (inl AttributeError, w)
  | Patent patent_id claimed_title relevancy :: rest =>
      let '(actual_title, w) := _get_patent_title patent_id w in
      match actual_title with
      | None => verify_loop compound total (i + 1) rest verified_patents w
      | Some actual_title =>
          match claimed_title with
          | JOther => (inl AttributeError, w)
          | JStr claimed_title =>
              let verified_patent :=
                make_verified patent_id claimed_title relevancy
                  actual_title in
              let verified_patents := verified_patents ++ [verified_patent] in
              let w := _save_verified_patent verified_patent compound w in
              let w :=
                if i <? total - 1 then sleep Config.REQUEST_DELAY w else w in
              verify_loop compound total (i + 1) rest verified_patents w
          end
      end
  end.

(** [TitleVerifier.verify_patents] *)
Definition verify_patents (patents : list candidate) (compound : pystr)
    (w : World) : (exn + list VerifiedPatent) * World :=
  verify_loop compound (Z.of_nat (List.length patents)) 0 patents [] w.

(** ** main.py *)

(** The dictionary of the [except Exception] handler. *)
Definition failure (compound : pystr) (e : exn) : RunResult :=
  mkRun compound 0 0 [] false None None (Some e).

(** [run_patent_search] *)
Definition run_patent_search (compound : pystr) (w : World)
    : RunResult * World :=
  match OPENAI_API_KEY with
  | [] => (failure compound ValueError, w)
  | _ =>
      let patents := search_patents compound in
      match patents with
      | [] =>
          (mkRun compound 0 0 [] false None
             (Some (str "No patents found by OpenAI search")) None, w)
      | _ =>
          match verify_patents patents compound w with
          | (inl e, w) => (failure compound e, w)
          | (inr verified_patents, w) =>
              match get_output_path compound w with
              | inl e => (failure compound e, w)
              | inr output_file =>
                  (mkRun compound (Z.of_nat (List.length patents))
                     (Z.of_nat (List.length verified_patents))
                     verified_patents true (Some output_file) None None, w)
              end
          end
      end
  end.


(** * Vocabulary of the properties *)

Import SequenceMatcher.

(** The three ranges the predicate tests: Chinese, Japanese kana, Korean
    Hangul. *)
Definition cjk_or_hangul (c : Z) : Prop :=
  0x4e00 <= c <= 0x9fff \/ 0x3040 <= c <= 0x30ff \/ 0xac00 <= c <= 0xd7af.

Definition is_ascii (c : Z) : Prop := 0 <= c < 128.

(** [c] is the lower-case ASCII letter [l] or its capital. *)
Definition same_letter (c l : Z) : Prop := c = l \/ c = l - 32.

(** [t] starts with [word] (given in lower case), in any letter case. *)
Definition starts_with_any_case (word t : pystr) : Prop :=
  exists p rest, t = p ++ rest /\ Forall2 same_letter p word.

(** What the proof needs of the lower-case table: no code point outside
    ASCII lower-cases to nothing, or to a string that begins with a letter
    of "abstract".  (In Unicode only U+0130 and U+212A lower-case to a
    string that begins in ASCII, with "i" and "k".) *)
Definition lower_table_ok : Prop :=
  forall before c after,
    ~ is_ascii c ->
    match unicode_lower before c after with
    | [] => False
    | x :: _ => ~ In x (str "abstract")
    end.

Definition plain_title : pystr :=
  str "Synthesis of 3-(trifluoromethyl)pyridine-4-carboxamide".

(** No call of a save to the file system raises in the world [w]. *)
Definition store_ok (compound : pystr) (w : World) : Prop :=
  os_fault w Makedirs (output_dir compound) = false
  /\ os_fault w OpenRead (output_path compound) = false
  /\ os_fault w OpenWrite (output_path compound) = false
  /\ os_fault w Write (output_path compound) = false.

(** No store operation ever fails. *)
Definition no_store_error : Prop :=
  (forall w op p, os_fault w op p = false)
  /\ (forall c l, json_dump_raises c l = false).

(** No write breaks off once the file is open. *)
Definition no_torn_write : Prop :=
  (forall w p, os_fault w Write p = false)
  /\ (forall c l, json_dump_raises c l = false).

(** The characters [get_output_path] keeps. *)
Definition kept (c : Z) : bool :=
  isalnum c || (c =? 32) || (c =? 45) || (c =? 95).

(** The request was answered with status 404. *)
Definition is_404 (r : get_result) : Prop :=
  match r with
  | Response status _ | BadContent status => status = 404
  | RequestException => False
  end.

(** The attempt ended in an exception other than the HTTP error 404. *)
Definition failed_otherwise (r : get_result) : Prop :=
  match r with
  | Response status _ => 400 <= status < 600 /\ status <> 404
  | BadContent status => status <> 404
  | RequestException => True
  end.


(** The records of the compound's result file, none when there is no
    readable result file. *)
Definition stored (compound : pystr) (w : World) : list VerifiedPatent :=
  match fs w !! output_path compound with
  | Some (ResultJson _ l) => l
  | _ => []
  end.

Definition stored_ids (compound : pystr) (w : World) : list pystr :=
  List.map patent_id (stored compound w).

(** The wait at the end of a turn of the loop. *)
Definition pace (total i : Z) (w : World) : World :=
  if i <? total - 1 then sleep Config.REQUEST_DELAY w else w.

(** The result file can be read as a result file, or is yet to be made. *)
Definition usable (compound : pystr) (w : World) : Prop :=
  fs w !! output_path compound <> Some OtherJson.



(** The identifiers of the candidates, in order. *)
Definition candidate_ids (patents : list candidate) : list pystr :=
  flat_map (fun c => match c with
                     | Patent pid _ _ => [pid]
                     | NotADict => []
                     end) patents.


(** A block inside the ranges [alo, ahi) of [a] and [blo, bhi) of [b]. *)
Definition block_in (alo ahi blo bhi : Z) (m : Match) : Prop :=
  alo <= m_a m /\ m_a m + m_size m <= ahi
  /\ blo <= m_b m /\ m_b m + m_size m <= bhi
  /\ 0 <= m_size m.

(** What the dictionary of row [i - 1] holds when row [i] starts. *)
Definition row_ok (alo blo bhi i : Z) (j2len : gmap Z Z) : Prop :=
  forall j k, j2len !! j = Some k ->
              1 <= k /\ k <= i - alo /\ k <= j - blo + 1 /\ j < bhi.

(** The ranges waiting in the queue, and what is left to do for them. *)
Definition range_ok (q : Z * Z * Z * Z) : Prop :=
  let '(alo, ahi, blo, bhi) := q in alo <= ahi /\ blo <= bhi.

Fixpoint queue_weight (queue : list (Z * Z * Z * Z)) : Z :=
  match queue with
  | [] => 0
  | (alo, ahi, _, _) :: queue' => 2 * (ahi - alo) + 1 + queue_weight queue'
  end.

(** Two strings with no character in common. *)
Definition disjoint (a b : pystr) : Prop := forall c, In c a -> ~ In c b.

(** The request was answered with a page and a status that
    [raise_for_status] accepts. *)
Definition answered (r : get_result) (page : soup) : Prop :=
  exists status, r = Response status page /\ ~ 400 <= status < 600.

(** The characters counted by a list of blocks, and the room the ranges
    of the queue leave in [a] and in [b]. *)
Definition blocks_size (l : list Match) : Z :=
  fold_right Z.add 0 (List.map m_size l).

Fixpoint queue_room_a (queue : list (Z * Z * Z * Z)) : Z :=
  match queue with
  | [] => 0
  | (alo, ahi, _, _) :: queue' => ahi - alo + queue_room_a queue'
  end.

Fixpoint queue_room_b (queue : list (Z * Z * Z * Z)) : Z :=
  match queue with
  | [] => 0
  | (_, _, blo, bhi) :: queue' => bhi - blo + queue_room_b queue'
  end.



(** The time spent in [time.sleep] so far. *)
Definition total_wait (w : World) : Z := fold_right Z.add 0 (sleeps w).

(** What every record built by the loop satisfies. *)
Definition well_formed_record (r : VerifiedPatent) : Prop :=
  _is_valid_title (title r) = true
  /\ (0 <= similarity_score r)%Q /\ (similarity_score r <= 1)%Q
  /\ verified r = Qle_bool Config.SIMILARITY_THRESHOLD (similarity_score r)
  /\ language_note r
     = (if _contains_non_english (title r)
        then Some language_note_text else None).

(** [elt] is purged from [b2j] as a popular element of [b]. *)
Definition popular (b : pystr) (elt : Z) : bool :=
  (len b >=? 200) && (len (indices elt 0 b) >? len b / 100 + 1).

(** Comparing [a] with itself: the cell of row [i] and column [j] is one
    the scan of row [i] visits, [a[i]] being the same as [a[j]] and not
    purged. *)
Definition cell (a : pystr) (i : nat) (j : Z) : bool :=
  (Z.of_nat i <? len a) && (0 <=? j) && (j <? len a)
  && negb (popular a (item a (Z.of_nat i)))
  && (item a (Z.of_nat i) =? item a j).

(** The length of the run of visited cells that ends in the cell of row [i]
    and column [j], up the diagonal. *)
Fixpoint run_length (a : pystr) (i : nat) (j : Z) : Z :=
  if cell a i j
  then 1 + match i with
           | O => 0
           | S i' => run_length a i' (j - 1)
           end
  else 0.

(** The same for the row before row [i]. *)
Definition prev_run (a : pystr) (i : nat) (j : Z) : Z :=
  match i with
  | O => 0
  | S i' => run_length a i' j
  end.

(** A list of positions in increasing order, none below [lo]. *)
Fixpoint ascending_from (lo : Z) (js : list Z) : Prop :=
  match js with
  | [] => True
  | j :: js' => lo <= j /\ ascending_from (j + 1) js'
  end.




(** [old] occurs in [s]; [old] occurs in [s] at a position below [n]. *)
Definition occurs (old s : pystr) : Prop :=
  exists p q, s = p ++ old ++ q.

Definition occurs_before (old s : pystr) (n : nat) : Prop :=
  exists p q, s = p ++ old ++ q /\ (List.length p < n)%nat.

(** * Properties *)


(** ** The non-English-script predicate *)

Lemma cjk_test_spec c :
  ((0x4e00 <=? c) && (c <=? 0x9fff)
   || (0x3040 <=? c) && (c <=? 0x30ff)
   || (0xac00 <=? c) && (c <=? 0xd7af)) = true <-> cjk_or_hangul c.
Proof. unfold cjk_or_hangul. lia. Qed.

(** C7: the predicate is true exactly on the texts that have a character
    in U+4E00..U+9FFF, U+3040..U+30FF or U+AC00..U+D7AF; on a text of ASCII
    characters only it is false. *)
Theorem contains_non_english_iff (t : pystr) :
  (_contains_non_english t = true <-> exists c, In c t /\ cjk_or_hangul c)
  /\ (Forall is_ascii t -> _contains_non_english t = false).
Proof.
  assert (Hiff : _contains_non_english t = true
                 <-> exists c, In c t /\ cjk_or_hangul c).
  { induction t as [|c t IH]; simpl.
    - split; [discriminate | intros (c & [] & _)].
    - pose proof (cjk_test_spec c) as Hc.
      destruct ((0x4e00 <=? c) && (c <=? 0x9fff)) eqn:E1;
        [split; [intros _; exists c; split; [now left | apply Hc; reflexivity] | reflexivity]|].
      destruct ((0x3040 <=? c) && (c <=? 0x30ff)) eqn:E2;
        [split; [intros _; exists c; split; [now left | apply Hc; reflexivity] | reflexivity]|].
      destruct ((0xac00 <=? c) && (c <=? 0xd7af)) eqn:E3;
        [split; [intros _; exists c; split; [now left | apply Hc; reflexivity] | reflexivity]|].
      rewrite IH. split.
      + intros (x & Hx & Hr). exists x. split; [now right | exact Hr].
      + intros (x & [<- | Hx] & Hr).
        * apply Hc in Hr. discriminate.
        * exists x. split; assumption. }
  split; [exact Hiff|].
  intros Hascii. apply not_true_is_false. intros E.
  apply Hiff in E. destruct E as (c & Hin & Hr).
  rewrite Forall_forall in Hascii. apply list_elem_of_In in Hin.
  specialize (Hascii c Hin).
  unfold is_ascii, cjk_or_hangul in *. lia.
Qed.

(** ** The title-plausibility predicate *)

Lemma str_abstract : str "abstract" = [97; 98; 115; 116; 114; 97; 99; 116].
Proof. reflexivity. Qed.

Lemma abstract_letter l : In l (str "abstract") -> 97 <= l <= 122.
Proof. rewrite str_abstract. simpl. lia. Qed.

Lemma startswith_lower_spec (Htbl : lower_table_ok) (word : pystr) :
  (forall l, In l word -> In l (str "abstract")) ->
  forall before t,
    startswith (lower_from before t) word = true
    <-> starts_with_any_case word t.
Proof.
  induction word as [|l word IH]; intros Hw before t.
  - simpl. split; [|reflexivity].
    intros _. exists [], t. split; [reflexivity | constructor].
  - assert (Hl : In l (str "abstract")) by (apply Hw; now left).
    pose proof (abstract_letter l Hl) as Hrange.
    assert (Hw' : forall x, In x word -> In x (str "abstract"))
      by (intros x Hx; apply Hw; now right).
    destruct t as [|c t].
    { simpl. split; [discriminate|].
      intros (p & rest & Heq & HF). inversion HF; subst. discriminate. }
    assert (Hspec : starts_with_any_case (l :: word) (c :: t)
                    <-> same_letter c l /\ starts_with_any_case word t).
    { split.
      - intros (p & rest & Heq & HF). inversion HF; subst.
        simpl in Heq. injection Heq as -> ->.
        split; [assumption|]. eexists _, rest. split; [reflexivity | assumption].
      - intros (Hc & p & rest & -> & HF).
        exists (c :: p), rest. split; [reflexivity | now constructor]. }
    rewrite Hspec. simpl. unfold lower_char, same_letter.
    destruct (is_ascii_upper c) eqn:Eu.
    + simpl. rewrite andb_true_iff, (IH Hw').
      unfold is_ascii_upper in Eu.
      split; (intros [H1 H2]; split; [lia | exact H2]).
    + destruct ((0 <=? c) && (c <? 128)) eqn:Ea.
      * simpl. rewrite andb_true_iff, (IH Hw').
        unfold is_ascii_upper in Eu.
        split; (intros [H1 H2]; split; [lia | exact H2]).
      * pose proof (Htbl before c t) as Hx.
        destruct (unicode_lower before c t) as [|x xs].
        { exfalso. apply Hx. unfold is_ascii. lia. }
        simpl. destruct (Z.eqb_spec x l) as [->|Hne].
        { exfalso. apply Hx; [unfold is_ascii; lia | exact Hl]. }
        simpl. split; [discriminate|]. intros [Hc _]. lia.
Qed.

(** C6: the predicate accepts a text exactly when the text is not empty,
    does not start with the word "abstract" in any letter case, has at most
    300 characters and has at most 2 of the characters '.', '!' and '?'
    taken together; in particular it accepts the plain short title
    "Synthesis of 3-(trifluoromethyl)pyridine-4-carboxamide". *)
Theorem is_valid_title_iff (Htbl : lower_table_ok) :
  (forall t : pystr,
      _is_valid_title t = true
      <-> t <> []
          /\ ~ starts_with_any_case (str "abstract") t
          /\ len t <= 300
          /\ count 46 t + count 33 t + count 63 t <= 2)
  /\ _is_valid_title plain_title = true.
Proof.
  split; [|reflexivity].
  intros t. unfold _is_valid_title.
  pose proof (startswith_lower_spec Htbl (str "abstract")
                (fun l H => H) [] t) as Hsw.
  fold (lower t) in Hsw.
  destruct t as [|c t]; [split; [discriminate | intros [H _]; congruence]|].
  destruct (startswith (lower (c :: t)) (str "abstract")) eqn:Es.
  - split; [discriminate|]. intros (_ & Hn & _). exfalso. apply Hn, Hsw.
    reflexivity.
  - assert (Hn : ~ starts_with_any_case (str "abstract") (c :: t)).
    { intros H. apply Hsw in H. discriminate. }
    destruct (len (c :: t) >? 300) eqn:El.
    + split; [discriminate | lia].
    + destruct (count 46 (c :: t) + count 33 (c :: t) + count 63 (c :: t) >? 2)
        eqn:Ec.
      * split; [discriminate | lia].
      * split; [|reflexivity]. intros _. repeat split; [discriminate | exact Hn | lia | lia].
Qed.

(** ** The output path *)

Lemma same_kept_same_dir (a b : pystr) :
  List.filter kept a = List.filter kept b -> output_dir a = output_dir b.
Proof.
  intros Hkept. unfold output_dir, safe_name. fold kept. now rewrite Hkept.
Qed.

Lemma save_unfold (r : VerifiedPatent) (compound : pystr) (w : World) :
  _save_verified_patent r compound w
  = if os_fault w Makedirs (output_dir compound) then w
    else if os_fault w OpenRead (output_path compound) then w
    else match fs w !! output_path compound with
         | Some OtherJson => w
         | Some (ResultJson c l) =>
             if decide (patent_id r ∈ List.map patent_id l) then w
             else if os_fault w OpenWrite (output_path compound) then w
             else if json_dump_raises c (l ++ [r])
                     || os_fault w Write (output_path compound)
             then write_file (output_path compound) NotJson w
             else write_file (output_path compound)
                    (ResultJson c (l ++ [r])) w
         | _ =>
             if os_fault w OpenWrite (output_path compound) then w
             else if json_dump_raises compound [r]
                     || os_fault w Write (output_path compound)
             then write_file (output_path compound) NotJson w
             else write_file (output_path compound)
                    (ResultJson compound [r]) w
         end.
Proof.
  unfold _save_verified_patent, get_output_path. cbv zeta.
  fold (output_path compound).
  destruct (os_fault w Makedirs _); [reflexivity|].
  destruct (os_fault w OpenRead _); [reflexivity|].
  destruct (fs w !! output_path compound) as [[|c l|]|]; try reflexivity.
  all: destruct (decide _) as [Hin|_]; [|reflexivity].
  all: exfalso; revert Hin; apply not_elem_of_nil.
Qed.

Lemma save_cases (r : VerifiedPatent) (compound : pystr) (w : World) :
  _save_verified_patent r compound w = w
  \/ exists f,
       _save_verified_patent r compound w
       = write_file (output_path compound) f w
       /\ f <> OtherJson.
Proof.
  rewrite save_unfold.
  destruct (os_fault w Makedirs _); [now left|].
  destruct (os_fault w OpenRead _); [now left|].
  destruct (fs w !! output_path compound) as [[|c l|]|];
    try (now left);
    try (destruct (decide _); [now left|]);
    (destruct (os_fault w OpenWrite _); [now left|]);
    (destruct (_ || _); right; eexists; (split; [reflexivity | discriminate])).
Qed.

Lemma save_present (r : VerifiedPatent) (compound : pystr) (w : World) :
  patent_id r ∈ stored_ids compound w ->
  _save_verified_patent r compound w = w.
Proof.
  rewrite save_unfold. unfold stored_ids, stored. intros Hin.
  destruct (os_fault w Makedirs _); [reflexivity|].
  destruct (os_fault w OpenRead _); [reflexivity|].
  destruct (fs w !! output_path compound) as [[|c l|]|];
    try (exfalso; revert Hin; apply not_elem_of_nil); try reflexivity.
  destruct (decide _); [reflexivity | contradiction].
Qed.

Lemma save_twice_same_path (r : VerifiedPatent) (a b : pystr) (w : World) :
  no_torn_write ->
  output_dir a = output_dir b ->
  _save_verified_patent r b (_save_verified_patent r a w)
  = _save_verified_patent r a w.
Proof.
  intros [Hwrite Hdump] Hdir.
  assert (Hpath : output_path b = output_path a).
  { unfold output_path. now rewrite Hdir. }
  assert (Hnew : forall c l,
             _save_verified_patent r b
               (write_file (output_path a) (ResultJson c (l ++ [r])) w)
             = write_file (output_path a) (ResultJson c (l ++ [r])) w).
  { intros c l. apply save_present. unfold stored_ids, stored.
    rewrite Hpath. simpl. rewrite lookup_insert_eq.
    apply list_elem_of_In. rewrite List.map_app.
    apply in_or_app. right. now left. }
  pose proof (save_unfold r b w) as Hb. rewrite <- Hdir, Hpath in Hb.
  rewrite (save_unfold r a w).
  destruct (os_fault w Makedirs _); [exact Hb|].
  destruct (os_fault w OpenRead _); [exact Hb|].
  destruct (fs w !! output_path a) as [[|c l|]|]; try exact Hb;
    try (destruct (decide _); [exact Hb|]);
    (destruct (os_fault w OpenWrite _); [exact Hb|]);
    rewrite Hdump, Hwrite; simpl orb; cbv iota.
  - apply (Hnew a []).
  - apply Hnew.
  - apply (Hnew a []).
Qed.

(** C10: only the alphanumeric characters, spaces, hyphens and underscores
    of a compound name reach the output path, so two names with the same
    kept characters get the same path, from [get_output_path] in every
    world, and share one result file: each name reads the records of the
    other, a record stored under one name is already there for the other,
    and, when no write breaks off, saving it again under the other name
    changes nothing. *)
Theorem same_kept_same_path (a b : pystr) :
  List.filter kept a = List.filter kept b ->
  safe_name a = replace_char 32 95 (rstrip (List.filter kept a))
  /\ output_path a = output_path b
  /\ (forall w, get_output_path a w = get_output_path b w)
  /\ (forall w, stored a w = stored b w)
  /\ (forall r w, patent_id r ∈ stored_ids a w ->
                  _save_verified_patent r b w = w)
  /\ (no_torn_write ->
      forall r w,
        _save_verified_patent r b (_save_verified_patent r a w)
        = _save_verified_patent r a w).
Proof.
  intros Hkept.
  pose proof (same_kept_same_dir a b Hkept) as Hdir.
  assert (Hpath : output_path a = output_path b).
  { unfold output_path. now rewrite Hdir. }
  split; [reflexivity|]. split; [exact Hpath|].
  split; [intros w; unfold get_output_path; now rewrite Hdir|].
  split; [intros w; unfold stored; now rewrite Hpath|].
  split.
  - intros r w Hin. apply save_present. unfold stored_ids, stored in *.
    now rewrite <- Hpath.
  - intros Htorn r w. now apply save_twice_same_path.
Qed.

(** ** Fetching a title *)

Lemma attempts_page (patent_id : pystr) (n attempt : nat) (w : World)
    (status : Z) (page : soup) :
  http_get (patent_url patent_id) (requests w) = Response status page ->
  ~ 400 <= status < 600 ->
  attempts patent_id (S n) attempt w
  = (title_of_page patent_id page, count_request w).
Proof.
  intros Hget Hok. simpl. rewrite Hget.
  destruct ((400 <=? status) && (status <? 600)) eqn:E; [lia | reflexivity].
Qed.

Lemma attempts_404 (patent_id : pystr) (n attempt : nat) (w : World) :
  is_404 (http_get (patent_url patent_id) (requests w)) ->
  attempts patent_id (S n) attempt w = (None, count_request w).
Proof.
  intros H. simpl.
  destruct (http_get (patent_url patent_id) (requests w)); simpl in H;
    [subst; reflexivity | subst; reflexivity | contradiction].
Qed.

Lemma attempts_failed (patent_id : pystr) (n attempt : nat) (w : World) :
  failed_otherwise (http_get (patent_url patent_id) (requests w)) ->
  attempts patent_id (S n) attempt w
  = attempts patent_id n (S attempt)
      (if Z.of_nat attempt <? Z.of_nat Config.MAX_RETRIES - 1
       then sleep 1 (count_request w) else count_request w).
Proof.
  intros H. simpl.
  destruct (http_get (patent_url patent_id) (requests w)) as [s pg|s|];
    simpl in H.
  - destruct H as [H1 H2].
    destruct ((400 <=? s) && (s <? 600)) eqn:E; [|lia].
    destruct (Z.eqb_spec s 404); [contradiction | reflexivity].
  - destruct ((400 <=? s) && (s <? 600)); [|reflexivity].
    destruct (Z.eqb_spec s 404); [contradiction | reflexivity].
  - reflexivity.
Qed.

Lemma attempts_failed_wait (patent_id : pystr) (n attempt : nat) (w : World) :
  (attempt < 2)%nat ->
  failed_otherwise (http_get (patent_url patent_id) (requests w)) ->
  attempts patent_id (S n) attempt w
  = attempts patent_id n (S attempt)
      (mkWorld (fs w) (S (requests w)) (sleeps w ++ [1])).
Proof.
  intros Hlt H. rewrite attempts_failed by exact H.
  unfold Config.MAX_RETRIES.
  destruct (Z.ltb_spec (Z.of_nat attempt) (Z.of_nat 3 - 1)); [reflexivity | lia].
Qed.

Lemma attempts_failed_last (patent_id : pystr) (n attempt : nat) (w : World) :
  (2 <= attempt)%nat ->
  failed_otherwise (http_get (patent_url patent_id) (requests w)) ->
  attempts patent_id (S n) attempt w
  = attempts patent_id n (S attempt)
      (mkWorld (fs w) (S (requests w)) (sleeps w)).
Proof.
  intros Hlt H. rewrite attempts_failed by exact H.
  unfold Config.MAX_RETRIES.
  destruct (Z.ltb_spec (Z.of_nat attempt) (Z.of_nat 3 - 1)); [lia | reflexivity].
Qed.

Lemma repeat_snoc (k : nat) : repeat 1 (S k) = repeat 1 k ++ [1].
Proof. induction k as [|k IH]; [reflexivity|]. simpl in *. now rewrite <- IH. Qed.



(** C4: a 404 ends the fetch at once with "not found", whatever is left of
    the budget: after [k] failed attempts and a 404, [k + 1] requests were
    sent and only the [k] waits of one unit that followed the failures were
    made; any other HTTP error or exception is followed by a wait of one
    unit and a new attempt, until the three attempts are used up, and the
    result is then "not found" (three requests, two waits). *)
Theorem fetch_404_stops_other_errors_retry (patent_id : pystr) (w : World) :
  let answer i := http_get (patent_url patent_id) (requests w + i)%nat in
  (forall k : nat,
      (k < 3)%nat ->
      (forall i, (i < k)%nat -> failed_otherwise (answer i)) ->
      is_404 (answer k) ->
      _get_patent_title patent_id w
      = (None,
         mkWorld (fs w) (requests w + k + 1)%nat (sleeps w ++ repeat 1 k)))
  /\ ((forall i, (i < 3)%nat -> failed_otherwise (answer i)) ->
      _get_patent_title patent_id w
      = (None, mkWorld (fs w) (requests w + 3)%nat (sleeps w ++ [1; 1]))).
Proof.
  intros answer. subst answer. cbv beta.
  unfold _get_patent_title, Config.MAX_RETRIES.
  split.
  - intros k Hk Hfail H404.
    destruct k as [|[|[|k]]]; [| | |lia].
    + rewrite Nat.add_0_r in H404. rewrite attempts_404 by assumption.
      unfold count_request. simpl. rewrite app_nil_r.
      do 3 f_equal. lia.
    + pose proof (Hfail O ltac:(lia)) as H0. rewrite Nat.add_0_r in H0.
      replace (requests w + 1)%nat with (S (requests w)) in H404 by lia.
      rewrite attempts_failed_wait; [|lia|exact H0].
      rewrite attempts_404 by exact H404.
      unfold count_request. simpl. do 3 f_equal. lia.
    + pose proof (Hfail O ltac:(lia)) as H0. rewrite Nat.add_0_r in H0.
      pose proof (Hfail 1%nat ltac:(lia)) as H1.
      replace (requests w + 1)%nat with (S (requests w)) in H1 by lia.
      replace (requests w + 2)%nat with (S (S (requests w))) in H404 by lia.
      rewrite attempts_failed_wait; [|lia|exact H0].
      rewrite attempts_failed_wait; [|lia|exact H1].
      rewrite attempts_404 by exact H404.
      unfold count_request. simpl. rewrite <- app_assoc. simpl.
      do 3 f_equal. lia.
  - intros Hfail.
    pose proof (Hfail O ltac:(lia)) as H0. rewrite Nat.add_0_r in H0.
    pose proof (Hfail 1%nat ltac:(lia)) as H1.
    pose proof (Hfail 2%nat ltac:(lia)) as H2.
    replace (requests w + 1)%nat with (S (requests w)) in H1 by lia.
    replace (requests w + 2)%nat with (S (S (requests w))) in H2 by lia.
    rewrite attempts_failed_wait; [|lia|exact H0].
    rewrite attempts_failed_wait; [|lia|exact H1].
    rewrite attempts_failed_last; [|lia|exact H2].
    simpl. rewrite <- app_assoc. simpl.
    do 3 f_equal. lia.
Qed.

(** ** The store *)


Lemma save_new (r : VerifiedPatent) (compound : pystr) (w : World) :
  store_ok compound w ->
  json_dump_raises compound [r] = false ->
  fs w !! output_path compound = None
  \/ fs w !! output_path compound = Some NotJson ->
  _save_verified_patent r compound w
  = write_file (output_path compound) (ResultJson compound [r]) w.
Proof.
  intros (Hmk & Hrd & Hwr & Hw) Hdump [E|E];
    now rewrite save_unfold, Hmk, Hrd, E, Hwr, Hdump, Hw.
Qed.


Lemma stored_torn (compound : pystr) (w : World) :
  stored compound (write_file (output_path compound) NotJson w) = [].
Proof. unfold stored. simpl. now rewrite lookup_insert_eq. Qed.







(** ** The verification loop *)

Lemma attempts_fs (patent_id : pystr) (n attempt : nat) (w : World) :
  fs (snd (attempts patent_id n attempt w)) = fs w.
Proof.
  revert attempt w. induction n as [|n IH]; intros attempt w; [reflexivity|].
  assert (Hfailed : forall w0, fs w0 = fs w ->
    fs (snd (attempts patent_id n (S attempt)
               (if Z.of_nat attempt <? Z.of_nat Config.MAX_RETRIES - 1
                then sleep 1 w0 else w0))) = fs w).
  { intros w0 H0. rewrite IH.
    destruct (Z.of_nat attempt <? Z.of_nat Config.MAX_RETRIES - 1);
      simpl; exact H0. }
  simpl.
  destruct (http_get (patent_url patent_id) (requests w)) as [st pg|st|].
  - destruct ((400 <=? st) && (st <? 600)); [|reflexivity].
    destruct (st =? 404); [reflexivity | now apply Hfailed].
  - destruct ((400 <=? st) && (st <? 600)); [|now apply Hfailed].
    destruct (st =? 404); [reflexivity | now apply Hfailed].
  - now apply Hfailed.
Qed.

Lemma get_patent_title_fs (patent_id : pystr) (w : World) :
  fs (snd (_get_patent_title patent_id w)) = fs w.
Proof. apply attempts_fs. Qed.

Lemma verify_loop_cons (compound : pystr) (total i : Z) (c : candidate)
    (rest : list candidate) (acc : list VerifiedPatent) (w : World) :
  verify_loop compound total i (c :: rest) acc w
  = match c with
    | NotADict => (inl AttributeError, w)
    | Patent pid claimed rel =>
        match fst (_get_patent_title pid w), claimed with
        | None, _ =>
            verify_loop compound total (i + 1) rest acc
              (snd (_get_patent_title pid w))
        | Some actual, JOther =>
            (inl AttributeError, snd (_get_patent_title pid w))
        | Some actual, JStr claimed =>
            let r := make_verified pid claimed rel actual in
            verify_loop compound total (i + 1) rest (acc ++ [r])
              (pace total i
                 (_save_verified_patent r compound
                    (snd (_get_patent_title pid w))))
        end
    end.
Proof.
  destruct c as [pid claimed rel|]; [|reflexivity].
  simpl. destruct (_get_patent_title pid w) as [[actual|] w1]; reflexivity.
Qed.

(** A relation between worlds that the three effects of the loop respect
    holds between the world before and the world after the loop. *)
Lemma verify_loop_world (compound : pystr) (P : World -> World -> Prop) :
  (forall w, P w w) ->
  (forall w1 w2 w3, P w1 w2 -> P w2 w3 -> P w1 w3) ->
  (forall pid w, P w (snd (_get_patent_title pid w))) ->
  (forall r w, P w (_save_verified_patent r compound w)) ->
  (forall d w, P w (sleep d w)) ->
  forall patents total i acc w,
    P w (snd (verify_loop compound total i patents acc w)).
Proof.
  intros Hrefl Htrans Hfetch Hsave Hsleep.
  induction patents as [|c rest IH]; intros total i acc w;
    [apply Hrefl|].
  rewrite verify_loop_cons.
  destruct c as [pid claimed rel|]; [|apply Hrefl].
  destruct (fst (_get_patent_title pid w)) as [actual|].
  - destruct claimed as [claimed|]; [|apply Hfetch].
    cbv zeta. eapply Htrans; [|apply IH].
    eapply Htrans; [apply Hfetch|]. eapply Htrans; [apply Hsave|].
    unfold pace. destruct (i <? total - 1); [apply Hsleep | apply Hrefl].
  - eapply Htrans; [apply Hfetch | apply IH].
Qed.












(** ** The run *)


Lemma run_no_path (compound : pystr) (w w' : World)
    (out : list VerifiedPatent) :
  OPENAI_API_KEY <> [] ->
  search_patents compound <> [] ->
  verify_patents (search_patents compound) compound w = (inr out, w') ->
  os_fault w' Makedirs (output_dir compound) = true ->
  run_patent_search compound w = (failure compound OSError, w').
Proof.
  intros Hkey Hne Hv Hmk. unfold run_patent_search.
  destruct OPENAI_API_KEY; [congruence|].
  destruct (search_patents compound) eqn:E; [congruence|].
  rewrite Hv. unfold get_output_path. cbv zeta. now rewrite Hmk.
Qed.

Lemma run_failed (compound : pystr) (w w' : World) (e : exn) :
  OPENAI_API_KEY <> [] ->
  search_patents compound <> [] ->
  verify_patents (search_patents compound) compound w = (inl e, w') ->
  run_patent_search compound w = (failure compound e, w').
Proof.
  intros Hkey Hne Hv. unfold run_patent_search.
  destruct OPENAI_API_KEY; [congruence|].
  destruct (search_patents compound) eqn:E; [congruence|].
  now rewrite Hv.
Qed.

Lemma get_output_path_raises (compound : pystr) (w : World) (e : exn) :
  get_output_path compound w = inl e ->
  e = OSError /\ os_fault w Makedirs (output_dir compound) = true.
Proof.
  unfold get_output_path. cbv zeta.
  destruct (os_fault w Makedirs _); [|discriminate].
  intros H. injection H as <-. now split.
Qed.


(** C8: when the search has returned candidates and an exception leaves
    the verification, or the making of the output directory after it, the
    run returns the dictionary of the handler: [success] false,
    [patents_found] 0, [patents_verified] 0, an empty [verified_patents]
    and the error; the world, and with it whatever was written to the
    result file before the exception, stays as the verification left it. *)
Theorem handler_reports_nothing (compound : pystr) (w w' : World) (e : exn) :
  OPENAI_API_KEY <> [] ->
  search_patents compound <> [] ->
  verify_patents (search_patents compound) compound w = (inl e, w')
  \/ (exists out,
        verify_patents (search_patents compound) compound w = (inr out, w')
        /\ get_output_path compound w' = inl e) ->
  let result := fst (run_patent_search compound w) in
  snd (run_patent_search compound w) = w'
  /\ success result = false
  /\ patents_found result = 0
  /\ patents_verified result = 0
  /\ run_verified_patents result = []
  /\ error result = Some e.
Proof.
  intros Hkey Hne [Hv | (out & Hv & He)].
  - rewrite (run_failed _ _ _ _ Hkey Hne Hv). repeat split.
  - apply get_output_path_raises in He. destruct He as [-> Hmk].
    rewrite (run_no_path _ _ _ _ Hkey Hne Hv Hmk). repeat split.
Qed.

(** ** Duplicates among the candidates *)






(** ** The similarity score *)

Lemma scan_row_ok (alo blo bhi i : Z) (j2len : gmap Z Z) (js : list Z)
    (best : Match) (newj2len : gmap Z Z) :
  alo <= i ->
  row_ok alo blo bhi i j2len ->
  row_ok alo blo bhi (i + 1) newj2len ->
  block_in alo (i + 1) blo bhi best ->
  let out := scan_row i blo bhi j2len js best newj2len in
  block_in alo (i + 1) blo bhi (fst out)
  /\ row_ok alo blo bhi (i + 1) (snd out).
Proof.
  intros Hi Hprev. revert best newj2len.
  induction js as [|j js IH]; intros best newj2len Hnew Hbest;
    [now split|].
  simpl. destruct (Z.ltb_spec j blo) as [Hlt|Hge]; [now apply IH|].
  destruct (j >=? bhi) eqn:Ehi; [now split|].
  assert (Hj : j < bhi) by lia.
  assert (Hk : 1 <= default 0 (j2len !! (j - 1)) + 1
               /\ default 0 (j2len !! (j - 1)) + 1 <= i + 1 - alo
               /\ default 0 (j2len !! (j - 1)) + 1 <= j - blo + 1).
  { destruct (j2len !! (j - 1)) as [k0|] eqn:E; simpl; [|lia].
    apply Hprev in E. lia. }
  set (k := default 0 (j2len !! (j - 1)) + 1) in *.
  apply IH.
  - intros j' k' Hlk. destruct (decide (j = j')) as [<-|Hne].
    + rewrite lookup_insert_eq in Hlk. injection Hlk as <-. lia.
    + rewrite lookup_insert_ne in Hlk by exact Hne. now apply Hnew.
  - destruct (k >? m_size best); [|exact Hbest].
    unfold block_in. simpl. lia.
Qed.

Lemma scan_rows_ok (a b : pystr) (alo blo bhi : Z) (n : nat) (i : Z)
    (j2len : gmap Z Z) (best : Match) :
  alo <= i ->
  row_ok alo blo bhi i j2len ->
  block_in alo i blo bhi best ->
  block_in alo (i + Z.of_nat n) blo bhi
    (scan_rows a b blo bhi n i j2len best).
Proof.
  revert i j2len best.
  induction n as [|n IH]; intros i j2len best Hi Hrow Hbest.
  - simpl. now rewrite Z.add_0_r.
  - simpl scan_rows.
    assert (Hbest' : block_in alo (i + 1) blo bhi best)
      by (unfold block_in in *; lia).
    assert (Hempty : row_ok alo blo bhi (i + 1) ∅)
      by (intros j k Hlk; now rewrite lookup_empty in Hlk).
    pose proof (scan_row_ok alo blo bhi i j2len (b2j b (item a i)) best ∅
                  Hi Hrow Hempty Hbest') as Hstep.
    destruct (scan_row i blo bhi j2len (b2j b (item a i)) best ∅)
      as [best1 new1].
    simpl in Hstep. destruct Hstep as [Hb1 Hr1].
    replace (i + Z.of_nat (S n)) with (i + 1 + Z.of_nat n) by lia.
    apply IH; [lia | exact Hr1 | exact Hb1].
Qed.

Lemma extend_left_ok (a b : pystr) (alo ahi blo bhi : Z) (fuel : nat)
    (m : Match) :
  block_in alo ahi blo bhi m ->
  block_in alo ahi blo bhi (extend_left a b alo blo fuel m).
Proof.
  revert m. induction fuel as [|fuel IH]; intros m Hm; [exact Hm|].
  simpl.
  destruct ((m_a m >? alo) && (m_b m >? blo)
            && (item a (m_a m - 1) =? item b (m_b m - 1))) eqn:E;
    [|exact Hm].
  apply IH. unfold block_in in *. simpl. lia.
Qed.

Lemma extend_right_ok (a b : pystr) (alo ahi blo bhi : Z) (fuel : nat)
    (m : Match) :
  block_in alo ahi blo bhi m ->
  block_in alo ahi blo bhi (extend_right a b ahi bhi fuel m).
Proof.
  revert m. induction fuel as [|fuel IH]; intros m Hm; [exact Hm|].
  simpl.
  destruct ((m_a m + m_size m <? ahi) && (m_b m + m_size m <? bhi)
            && (item a (m_a m + m_size m) =? item b (m_b m + m_size m)))
    eqn:E; [|exact Hm].
  apply IH. unfold block_in in *. simpl. lia.
Qed.

(** The block [find_longest_match] returns lies in the ranges it was
    given. *)
Lemma find_longest_match_in (a b : pystr) (alo ahi blo bhi : Z) :
  alo <= ahi -> blo <= bhi ->
  block_in alo ahi blo bhi (find_longest_match a b alo ahi blo bhi).
Proof.
  intros Ha Hb. unfold find_longest_match.
  apply extend_right_ok, extend_left_ok.
  replace ahi with (alo + Z.of_nat (Z.to_nat (ahi - alo))) at 1 by lia.
  apply scan_rows_ok.
  - lia.
  - intros j k Hlk. now rewrite lookup_empty in Hlk.
  - unfold block_in. simpl. lia.
Qed.

Lemma queue_weight_nonneg (queue : list (Z * Z * Z * Z)) :
  List.Forall range_ok queue -> 0 <= queue_weight queue.
Proof.
  induction 1 as [|[[[alo ahi] blo] bhi] queue Hq _ IH]; simpl; [lia|].
  simpl in Hq. lia.
Qed.

(** The loop of [get_matching_blocks] ends within the fuel it is given. *)
Lemma blocks_loop_terminates (a b : pystr) (fuel : nat)
    (queue : list (Z * Z * Z * Z)) (acc : list Match) :
  List.Forall range_ok queue ->
  queue_weight queue <= Z.of_nat fuel ->
  exists blocks, blocks_loop a b fuel queue acc = Some blocks.
Proof.
  revert queue acc. induction fuel as [|fuel IH]; intros queue acc Hq Hw.
  - destruct queue as [|[[[alo ahi] blo] bhi] queue]; [now eexists|].
    apply List.Forall_cons_iff in Hq. destruct Hq as [Hr Hq].
    pose proof (queue_weight_nonneg _ Hq). simpl in Hr, Hw. lia.
  - destruct queue as [|[[[alo ahi] blo] bhi] queue]; [now eexists|].
    apply List.Forall_cons_iff in Hq. destruct Hq as [Hr Hq].
    simpl in Hr. destruct Hr as [Ha Hb].
    pose proof (queue_weight_nonneg _ Hq) as Hnn.
    pose proof (find_longest_match_in a b alo ahi blo bhi Ha Hb) as Hin.
    simpl blocks_loop. simpl queue_weight in Hw.
    set (x := find_longest_match a b alo ahi blo bhi) in *.
    unfold block_in in Hin.
    destruct (Z.eqb_spec (m_size x) 0) as [Hz|Hnz]; [apply IH; [exact Hq | lia]|].
    destruct (Z.ltb_spec alo (m_a x)) as [H1|H1];
      destruct (Z.ltb_spec blo (m_b x)) as [H2|H2];
      destruct (Z.ltb_spec (m_a x + m_size x) ahi) as [H3|H3];
      destruct (Z.ltb_spec (m_b x + m_size x) bhi) as [H4|H4];
      simpl; apply IH;
      repeat (apply List.Forall_cons; [simpl; lia|]); try exact Hq;
      simpl; lia.
Qed.

Lemma get_matching_blocks_run (a b : pystr) :
  blocks_loop a b (blocks_fuel a) [(0, len a, 0, len b)] []
  = Some (get_matching_blocks a b).
Proof.
  unfold get_matching_blocks.
  destruct (blocks_loop_terminates a b (blocks_fuel a)
              [(0, len a, 0, len b)] []) as [blocks ->]; [| |reflexivity].
  - constructor; [|constructor]. unfold len. simpl. lia.
  - unfold blocks_fuel, len. simpl. lia.
Qed.

Lemma indices_absent (elt i : Z) (b : pystr) :
  ~ In elt b -> indices elt i b = [].
Proof.
  revert i. induction b as [|c b IH]; intros i Hnin; [reflexivity|].
  simpl. destruct (Z.eqb_spec c elt) as [->|_].
  - exfalso. apply Hnin. now left.
  - simpl. apply IH. intros H. apply Hnin. now right.
Qed.

Lemma b2j_absent (b : pystr) (elt : Z) : ~ In elt b -> b2j b elt = [].
Proof.
  intros H. unfold b2j. rewrite (indices_absent _ _ _ H).
  now destruct ((len b >=? 200) && (len [] >? len b / 100 + 1)).
Qed.

Lemma item_in (s : pystr) (i : Z) : 0 <= i < len s -> In (item s i) s.
Proof. intros H. unfold item. apply nth_In. unfold len in H. lia. Qed.

Lemma scan_rows_disjoint (a b : pystr) (blo bhi : Z) (n : nat) (i : Z)
    (j2len : gmap Z Z) (best : Match) :
  disjoint a b ->
  0 <= i -> i + Z.of_nat n <= len a ->
  scan_rows a b blo bhi n i j2len best = best.
Proof.
  intros Hd. revert i j2len. induction n as [|n IH]; intros i j2len H0 Hn;
    [reflexivity|].
  simpl. rewrite b2j_absent by (apply Hd, item_in; lia).
  simpl. apply IH; lia.
Qed.

Lemma find_longest_match_disjoint (a b : pystr) (alo ahi blo bhi : Z) :
  disjoint a b ->
  0 <= alo <= ahi -> ahi <= len a ->
  0 <= blo <= bhi -> bhi <= len b ->
  find_longest_match a b alo ahi blo bhi = mkMatch alo blo 0.
Proof.
  intros Hd Ha Ha' Hb Hb'. unfold find_longest_match.
  rewrite scan_rows_disjoint by (try exact Hd; lia).
  cbv zeta. cbn [m_a m_size]. rewrite Z.sub_diag.
  change (Z.to_nat 0) with O. cbn [extend_left m_a m_size].
  destruct (Z.to_nat (ahi - (alo + 0))) as [|fuel]; [reflexivity|].
  simpl. rewrite !Z.add_0_r.
  destruct (Z.ltb_spec alo ahi) as [H1|H1]; [|reflexivity].
  destruct (Z.ltb_spec blo bhi) as [H2|H2]; [|reflexivity].
  destruct (Z.eqb_spec (item a alo) (item b blo)) as [E|E]; [|reflexivity].
  exfalso. apply (Hd (item a alo)); [apply item_in; lia|].
  rewrite E. apply item_in. lia.
Qed.

Lemma matches_disjoint (a b : pystr) : disjoint a b -> matches a b = 0.
Proof.
  intros Hd. unfold matches.
  assert (H : get_matching_blocks a b = []); [|now rewrite H].
  pose proof (get_matching_blocks_run a b) as Hrun.
  unfold blocks_fuel in Hrun.
  destruct (Z.to_nat (2 * len a + 1)) as [|fuel] eqn:Ef;
    [unfold len in Ef; lia|].
  simpl in Hrun.
  rewrite find_longest_match_disjoint in Hrun
    by (try exact Hd; unfold len; lia).
  destruct fuel; simpl in Hrun; congruence.
Qed.

Lemma disjoint_sym (a b : pystr) : disjoint a b -> disjoint b a.
Proof. intros H c Hb Ha. exact (H c Ha Hb). Qed.

(** C5, as the code has it: the score does not depend on the order of the
    two titles when, once lower-cased and stripped, they are the same
    string or have no character in common. *)
Theorem similarity_symmetric_when (title1 title2 : pystr) :
  strip (lower title1) = strip (lower title2)
  \/ disjoint (strip (lower title1)) (strip (lower title2)) ->
  _calculate_similarity title1 title2 = _calculate_similarity title2 title1.
Proof.
  unfold _calculate_similarity. intros [Heq | Hd]; [now rewrite Heq|].
  unfold ratio.
  rewrite (matches_disjoint _ _ Hd), (matches_disjoint _ _ (disjoint_sym _ _ Hd)).
  now rewrite (Z.add_comm (len (strip (lower title2)))).
Qed.


(** ** More on fetching a title *)

(** From here on a proof depends on the tables and oracles its statement
    names, and on no other. *)
Set Default Proof Using "Type".

(** Forget the variables of the context that the goal does not use, so that
    no tactic picks them up. *)
Ltac drop_unused :=
  repeat match goal with
         | v : ?T |- _ =>
             lazymatch type of T with
             | Prop => fail
             | _ => clear v
             end
         end.

Lemma answer_cases (r : get_result) :
  is_404 r \/ failed_otherwise r \/ exists page, answered r page.
Proof.
  destruct r as [s pg|s|]; simpl.
  - destruct (Z.eq_dec s 404) as [->|Hne]; [now left|].
    destruct (Z_le_dec 400 s) as [H1|H1];
      [destruct (Z_lt_dec s 600) as [H2|H2]|].
    + right. left. lia.
    + right. right. exists pg, s. split; [reflexivity | lia].
    + right. right. exists pg, s. split; [reflexivity | lia].
  - destruct (Z.eq_dec s 404) as [->|Hne]; [now left | right; now left].
  - right. now left.
Qed.

(** The shape of every fetch: [m] requests, [m - 1] waits of one unit, and a
    result that is "not found" or the title of the page the last request
    got. *)
Lemma attempts_cases (patent_id : pystr) (n attempt : nat) (w : World) :
  (attempt + n = 3)%nat -> (1 <= n)%nat ->
  exists m : nat,
    (1 <= m <= n)%nat
    /\ snd (attempts patent_id n attempt w)
       = mkWorld (fs w) (requests w + m) (sleeps w ++ repeat 1 (m - 1))
    /\ (fst (attempts patent_id n attempt w) = None
        \/ exists page,
             answered (http_get (patent_url patent_id)
                         (requests w + m - 1)%nat) page
             /\ fst (attempts patent_id n attempt w)
                = title_of_page patent_id page).
Proof.
  revert attempt w. induction n as [|n IH]; intros attempt w Hsum Hn; [lia|].
  destruct (answer_cases (http_get (patent_url patent_id) (requests w)))
    as [H404 | [Hfail | [page Hpage]]].
  - exists 1%nat. rewrite attempts_404 by exact H404. simpl.
    rewrite app_nil_r. split; [lia|]. split; [|now left].
    unfold count_request. f_equal. lia.
  - destruct n as [|n].
    + exists 1%nat. rewrite attempts_failed_last; [|lia|exact Hfail].
      simpl. rewrite app_nil_r. split; [lia|]. split; [|now left].
      f_equal. lia.
    + rewrite attempts_failed_wait; [|lia|exact Hfail].
      destruct (IH (S attempt)
                  (mkWorld (fs w) (S (requests w)) (sleeps w ++ [1])))
        as (m & Hm & Hw & Hres); [lia | lia |].
      exists (S m). split; [lia|]. simpl fs in Hw. simpl requests in Hw, Hres.
      simpl sleeps in Hw. split.
      * rewrite Hw. f_equal; [lia|]. rewrite <- app_assoc. f_equal.
        destruct m as [|m]; [lia|]. simpl. now rewrite Nat.sub_0_r.
      * destruct Hres as [Hnone | (page & Hans & Hres)]; [now left|].
        right. exists page. split; [|exact Hres].
        replace (requests w + S m - 1)%nat with (S (requests w) + m - 1)%nat
          by lia. exact Hans.
  - destruct Hpage as (status & Hget & Hok).
    exists 1%nat. rewrite (attempts_page _ _ _ _ _ _ Hget Hok). simpl.
    rewrite app_nil_r. split; [lia|]. split.
    + unfold count_request. f_equal. lia.
    + right. exists page. split; [|reflexivity].
      exists status. split; [|exact Hok].
      now replace (requests w + 1 - 1)%nat with (requests w) by lia.
Qed.

Lemma title_of_page_valid (patent_id : pystr) (page : soup) (t : pystr) :
  title_of_page patent_id page = Some t -> _is_valid_title t = true.
Proof.
  unfold title_of_page, heading_title. intros H.
  assert (Hh : match h1_pageTitle page with
               | Some full_title =>
                   if _is_valid_title (clean_heading patent_id full_title)
                   then Some (clean_heading patent_id full_title) else None
               | None => None
               end = Some t -> _is_valid_title t = true).
  { destruct (h1_pageTitle page) as [full|]; [|discriminate].
    destruct (_is_valid_title (clean_heading patent_id full)) eqn:E;
      [|discriminate].
    intros [= <-]. exact E. }
  destruct (span_title page) as [s|]; [|now apply Hh].
  destruct (_is_valid_title s) eqn:E; [|now apply Hh].
  injection H as <-. exact E.
Qed.

(** X1: a fetch sends at least one request and at most three; it waits one
    unit after each request but the last one, and leaves every file as it
    was. *)
Theorem fetch_budget (patent_id : pystr) (w : World) :
  exists m : nat,
    (1 <= m <= 3)%nat
    /\ requests (snd (_get_patent_title patent_id w)) = (requests w + m)%nat
    /\ sleeps (snd (_get_patent_title patent_id w))
       = sleeps w ++ repeat 1 (m - 1)
    /\ fs (snd (_get_patent_title patent_id w)) = fs w.
Proof.
  destruct (attempts_cases patent_id 3 0 w) as (m & Hm & Hw & _); [lia|lia|].
  exists m. unfold _get_patent_title, Config.MAX_RETRIES. rewrite Hw.
  repeat split; lia.
Qed.

(** X2: a title the fetch returns has passed the plausibility heuristics,
    whether it came from the title field or from the heading. *)
Theorem fetched_title_is_plausible (patent_id : pystr) (w w' : World)
    (t : pystr) :
  _get_patent_title patent_id w = (Some t, w') ->
  _is_valid_title t = true.
Proof.
  intros H.
  destruct (attempts_cases patent_id 3 0 w) as (m & _ & _ & Hres);
    [lia|lia|].
  unfold _get_patent_title, Config.MAX_RETRIES in H. rewrite H in Hres.
  simpl in Hres. destruct Hres as [Hnone | (page & _ & Hres)];
    [discriminate|].
  symmetry in Hres. now apply title_of_page_valid in Hres.
Qed.


(** ** More on the similarity score *)

Lemma blocks_size_snoc (l : list Match) (x : Match) :
  blocks_size (l ++ [x]) = blocks_size l + m_size x.
Proof.
  unfold blocks_size. induction l as [|y l IH]; simpl; [lia|].
  simpl in IH. lia.
Qed.

(** The blocks share no character of [a] and none of [b]: what they count
    fits in the ranges they were found in. *)
Lemma blocks_loop_size (a b : pystr) (fuel : nat)
    (queue : list (Z * Z * Z * Z)) (acc blocks : list Match) :
  List.Forall range_ok queue ->
  blocks_loop a b fuel queue acc = Some blocks ->
  blocks_size acc <= blocks_size blocks
  /\ blocks_size blocks <= blocks_size acc + queue_room_a queue
  /\ blocks_size blocks <= blocks_size acc + queue_room_b queue.
Proof.
  revert queue acc. induction fuel as [|fuel IH]; intros queue acc Hq Hrun.
  - destruct queue as [|[[[alo ahi] blo] bhi] queue]; [|discriminate].
    simpl in Hrun. injection Hrun as <-. simpl. lia.
  - destruct queue as [|[[[alo ahi] blo] bhi] queue].
    { simpl in Hrun. injection Hrun as <-. simpl. lia. }
    apply List.Forall_cons_iff in Hq. destruct Hq as [Hr Hq].
    simpl in Hr. destruct Hr as [Ha Hb].
    pose proof (find_longest_match_in a b alo ahi blo bhi Ha Hb) as Hin.
    simpl blocks_loop in Hrun. simpl queue_room_a. simpl queue_room_b.
    set (x := find_longest_match a b alo ahi blo bhi) in *.
    unfold block_in in Hin.
    destruct (Z.eqb_spec (m_size x) 0) as [Hz|Hnz].
    { apply IH in Hrun; [lia | exact Hq]. }
    destruct (Z.ltb_spec alo (m_a x)) as [H1|H1];
      destruct (Z.ltb_spec blo (m_b x)) as [H2|H2];
      destruct (Z.ltb_spec (m_a x + m_size x) ahi) as [H3|H3];
      destruct (Z.ltb_spec (m_b x + m_size x) bhi) as [H4|H4];
      simpl in Hrun; apply IH in Hrun;
      try (repeat (apply List.Forall_cons; [simpl; lia|]); exact Hq);
      rewrite blocks_size_snoc in Hrun; simpl in Hrun; lia.
Qed.

Lemma matches_bounds (a b : pystr) :
  0 <= matches a b /\ matches a b <= len a /\ matches a b <= len b.
Proof.
  pose proof (get_matching_blocks_run a b) as Hrun.
  apply blocks_loop_size in Hrun.
  - unfold matches. fold (blocks_size (get_matching_blocks a b)).
    change (blocks_size []) with 0 in Hrun. simpl in Hrun. lia.
  - constructor; [|constructor]. unfold len. simpl. lia.
Qed.

Lemma ratio_bounds (a b : pystr) : (0 <= ratio a b)%Q /\ (ratio a b <= 1)%Q.
Proof.
  unfold ratio.
  pose proof (matches_bounds a b) as (H0 & Ha & Hb).
  destruct (Z.eqb_spec (len a + len b) 0) as [_|Hne].
  - split; unfold Qle; simpl; lia.
  - assert (Hpos : 0 < len a + len b) by (unfold len in *; lia).
    split; unfold Qle; simpl; rewrite ?Z2Pos.id by exact Hpos; lia.
Qed.

(** X4: the similarity score of any two titles lies between 0 and 1. *)
Theorem similarity_in_unit_interval (title1 title2 : pystr) :
  (0 <= _calculate_similarity title1 title2)%Q
  /\ (_calculate_similarity title1 title2 <= 1)%Q.
Proof. unfold _calculate_similarity. apply ratio_bounds. Qed.

(** X5: a candidate without a claimed title (the default [''], or white
    space only) never verifies: against any fetched title that is not white
    space only, its score is 0 and [verified] is false. *)
Theorem missing_title_never_verifies (pid claimed rel actual : pystr) :
  strip (lower claimed) = [] ->
  strip (lower actual) <> [] ->
  (_calculate_similarity claimed actual == 0)%Q
  /\ verified (make_verified pid claimed rel actual) = false.
Proof.
  intros Hc Ha.
  assert (Hsim : exists p, _calculate_similarity claimed actual = (0 # p)%Q).
  { unfold _calculate_similarity, ratio. rewrite Hc.
    rewrite matches_disjoint by (intros c []).
    destruct (Z.eqb_spec (len [] + len (strip (lower actual))) 0) as [E|_].
    - exfalso. destruct (strip (lower actual)); [congruence|].
      unfold len in E. simpl in E. lia.
    - now eexists. }
  destruct Hsim as [p Hp]. simpl. rewrite Hp. split; [reflexivity|].
  unfold Qle_bool, Config.SIMILARITY_THRESHOLD. simpl.
  destruct (Z.leb_spec (Z.pos (8 * p)) 0); [lia | reflexivity].
Qed.

(** ** More on the store and the loop *)

Lemma save_frame (r : VerifiedPatent) (compound : pystr) (w : World)
    (p : pystr) :
  p <> output_path compound ->
  fs (_save_verified_patent r compound w) !! p = fs w !! p.
Proof.
  intros Hp. destruct (save_cases r compound w) as [-> | (f & -> & _)];
    [reflexivity|].
  simpl. rewrite lookup_insert_ne by congruence. reflexivity.
Qed.

Lemma save_clock (r : VerifiedPatent) (compound : pystr) (w : World) :
  requests (_save_verified_patent r compound w) = requests w
  /\ sleeps (_save_verified_patent r compound w) = sleeps w.
Proof.
  destruct (save_cases r compound w) as [-> | (f & -> & _)]; now split.
Qed.


Lemma verify_loop_frame (compound : pystr) (patents : list candidate)
    (total i : Z) (acc : list VerifiedPatent) (w : World) (p : pystr) :
  p <> output_path compound ->
  fs (snd (verify_loop compound total i patents acc w)) !! p = fs w !! p.
Proof.
  intros Hp.
  apply (verify_loop_world compound (fun w w' => fs w' !! p = fs w !! p)).
  - reflexivity.
  - intros w1 w2 w3 H1 H2. now rewrite H2.
  - intros pid w0. now rewrite get_patent_title_fs.
  - intros r w0. now apply save_frame.
  - reflexivity.
Qed.


Lemma run_world (compound : pystr) (w : World) :
  snd (run_patent_search compound w) = w
  \/ snd (run_patent_search compound w)
     = snd (verify_patents (search_patents compound) compound w).
Proof.
  unfold run_patent_search.
  destruct OPENAI_API_KEY; [now left|].
  destruct (search_patents compound) eqn:E; [now left|].
  right. destruct (verify_patents _ _ _) as [[e|out] w']; [reflexivity|].
  now destruct (get_output_path compound w').
Qed.

(** X6: a run writes no file but the result file of its compound: every
    other path holds after the run what it held before. *)
Theorem run_touches_one_file (compound : pystr) (w : World) (p : pystr) :
  p <> output_path compound ->
  fs (snd (run_patent_search compound w)) !! p = fs w !! p.
Proof.
  intros Hp. destruct (run_world compound w) as [-> | ->]; [reflexivity|].
  now apply verify_loop_frame.
Qed.




(** X19: a write that breaks off costs more than the record being saved.
    When the file was opened for writing and [json.dump] or the write then
    raises, the result file is left unreadable and the records it held are
    gone, while nothing else changes; the next save whose operations succeed
    starts a new file with its record alone. *)
Theorem torn_write_loses_records (r r2 : VerifiedPatent) (compound : pystr)
    (w : World) :
  os_fault w Makedirs (output_dir compound) = false ->
  os_fault w OpenRead (output_path compound) = false ->
  os_fault w OpenWrite (output_path compound) = false ->
  usable compound w ->
  ~ patent_id r ∈ stored_ids compound w ->
  (forall c l, json_dump_raises c (l ++ [r]) = true)
  \/ os_fault w Write (output_path compound) = true ->
  let w1 := _save_verified_patent r compound w in
  w1 = write_file (output_path compound) NotJson w
  /\ stored compound w1 = []
  /\ (store_ok compound w1 ->
      json_dump_raises compound [r2] = false ->
      fs (_save_verified_patent r2 compound w1) !! output_path compound
      = Some (ResultJson compound [r2])).
Proof.
  intros Hmk Hrd Hwr Hu Hfresh Htorn. cbv zeta.
  assert (Hw1 : _save_verified_patent r compound w
                = write_file (output_path compound) NotJson w).
  { rewrite save_unfold, Hmk, Hrd, Hwr.
    assert (Hor : forall c l,
               json_dump_raises c (l ++ [r])
               || os_fault w Write (output_path compound) = true).
    { intros c l. destruct Htorn as [H | H]; rewrite H;
        [reflexivity | apply orb_true_r]. }
    unfold usable in Hu. unfold stored_ids, stored in Hfresh.
    destruct (fs w !! output_path compound) as [[|c l|]|];
      try congruence.
    - pose proof (Hor compound []) as H. simpl app in H. now rewrite H.
    - destruct (decide _); [contradiction|]. now rewrite Hor.
    - pose proof (Hor compound []) as H. simpl app in H. now rewrite H. }
  rewrite Hw1. split; [reflexivity|]. split; [apply stored_torn|].
  intros Hok Hdump. rewrite save_new; [|exact Hok|exact Hdump|].
  - simpl. now rewrite lookup_insert_eq.
  - right. simpl. now rewrite lookup_insert_eq.
Qed.

(** ** More on the run *)

Lemma candidate_ids_length (patents : list candidate) :
  (List.length (candidate_ids patents) <= List.length patents)%nat.
Proof.
  induction patents as [|[pid t rel|] rest IH]; simpl; lia.
Qed.

Lemma verify_loop_ids_sub (compound : pystr) (patents : list candidate)
    (total i : Z) (acc out : list VerifiedPatent) (w w' : World) :
  verify_loop compound total i patents acc w = (inr out, w') ->
  exists o, out = acc ++ o
            /\ sublist (List.map patent_id o) (candidate_ids patents).
Proof.
  revert i acc w. induction patents as [|c rest IH]; intros i acc w H.
  - simpl in H. injection H as <- _. exists []. rewrite app_nil_r.
    split; [reflexivity | constructor].
  - rewrite verify_loop_cons in H.
    destruct c as [pid claimed rel|]; [|discriminate].
    change (candidate_ids (Patent pid claimed rel :: rest))
      with (pid :: candidate_ids rest).
    destruct (fst (_get_patent_title pid w)) as [actual|].
    + destruct claimed as [claimed|]; [|discriminate].
      cbv zeta in H. apply IH in H. destruct H as (o & -> & Hsub).
      exists (make_verified pid claimed rel actual :: o).
      rewrite <- app_assoc. split; [reflexivity|].
      simpl. now apply sublist_skip.
    + apply IH in H. destruct H as (o & -> & Hsub).
      exists o. split; [reflexivity | now apply sublist_cons].
Qed.

(** X9: in the result of every run, [patents_verified] is the length of
    [verified_patents] and lies between 0 and [patents_found], and the
    identifiers of [verified_patents] are identifiers of the candidates, in
    the order of the candidates. *)
Theorem run_counts_and_order (compound : pystr) (w : World) :
  let result := fst (run_patent_search compound w) in
  0 <= patents_verified result <= patents_found result
  /\ patents_verified result
     = Z.of_nat (List.length (run_verified_patents result))
  /\ sublist (List.map patent_id (run_verified_patents result))
       (candidate_ids (search_patents compound)).
Proof.
  unfold run_patent_search.
  destruct OPENAI_API_KEY;
    [simpl; repeat split; try lia; apply sublist_nil_l|].
  destruct (search_patents compound) as [|c rest] eqn:E;
    [simpl; repeat split; try lia; apply sublist_nil_l|].
  destruct (verify_patents (c :: rest) compound w) as [[e|out] w'] eqn:Hv;
    [simpl; repeat split; try lia; apply sublist_nil_l|].
  destruct (get_output_path compound w');
    [simpl; repeat split; try lia; apply sublist_nil_l|].
  unfold verify_patents in Hv. apply verify_loop_ids_sub in Hv.
  destruct Hv as (o & -> & Hsub). simpl app in *.
  cbv zeta. simpl fst. simpl patents_verified. simpl patents_found.
  simpl run_verified_patents.
  split; [|split; [reflexivity | exact Hsub]].
  pose proof (sublist_length _ _ Hsub) as Hlen.
  pose proof (candidate_ids_length (c :: rest)) as Hids.
  rewrite List.length_map in Hlen.
  change (List.length (c :: rest)) with (S (List.length rest)) in Hids. lia.
Qed.




(** ** Requests, waits and records of a run *)

Lemma total_wait_app (l1 l2 : list Z) :
  fold_right Z.add 0 (l1 ++ l2) = fold_right Z.add 0 l1 + fold_right Z.add 0 l2.
Proof. induction l1 as [|x l1 IH]; simpl; lia. Qed.

Lemma total_wait_repeat (k : nat) :
  fold_right Z.add 0 (repeat 1 k) = Z.of_nat k.
Proof. induction k as [|k IH]; simpl repeat; simpl fold_right; lia. Qed.

Lemma fetch_clock (pid : pystr) (w : World) :
  let w' := snd (_get_patent_title pid w) in
  (requests w + 1 <= requests w' <= requests w + 3)%nat
  /\ total_wait w <= total_wait w' <= total_wait w + 2.
Proof.
  destruct (attempts_cases pid 3 0 w) as (m & Hm & Hw & _); [lia|lia|].
  cbv zeta. unfold _get_patent_title, Config.MAX_RETRIES, total_wait.
  rewrite Hw. simpl. rewrite total_wait_app, total_wait_repeat. lia.
Qed.

Lemma verify_loop_clock (compound : pystr) (patents : list candidate)
    (total i : Z) (acc : list VerifiedPatent) (w : World) :
  let w' := snd (verify_loop compound total i patents acc w) in
  (requests w <= requests w'
   <= requests w + 3 * List.length patents)%nat
  /\ total_wait w <= total_wait w'
     <= total_wait w + 4 * Z.of_nat (List.length patents).
Proof.
  revert i acc w. induction patents as [|c rest IH]; intros i acc w.
  - simpl. lia.
  - rewrite verify_loop_cons.
    destruct c as [pid claimed rel|]; [|simpl; lia].
    pose proof (fetch_clock pid w) as Hf. cbv zeta in Hf.
    change (List.length (Patent pid claimed rel :: rest))
      with (S (List.length rest)).
    destruct (fst (_get_patent_title pid w)) as [actual|].
    + destruct claimed as [claimed|]; [|simpl; lia].
      cbv zeta.
      set (r := make_verified pid claimed rel actual).
      set (w1 := snd (_get_patent_title pid w)) in Hf |- *.
      pose proof (save_clock r compound w1) as [Hr Hs].
      assert (Hp : requests (pace total i (_save_verified_patent r compound w1))
                   = requests w1
                   /\ total_wait w1
                      <= total_wait
                           (pace total i (_save_verified_patent r compound w1))
                      <= total_wait w1 + 2).
      { unfold pace, total_wait. destruct (i <? total - 1); simpl.
        - rewrite Hr, Hs, total_wait_app. unfold Config.REQUEST_DELAY.
          simpl. lia.
        - rewrite Hr, Hs. lia. }
      specialize (IH (i + 1) (acc ++ [r])
                    (pace total i (_save_verified_patent r compound w1))).
      cbv zeta in IH. lia.
    + specialize (IH (i + 1) acc (snd (_get_patent_title pid w))).
      cbv zeta in IH |- *. lia.
Qed.

(** X11: a run sends at most three requests for each candidate and spends
    at most four units in waits for each candidate (two between attempts,
    two before the next candidate); the counters never go back. *)
Theorem run_request_and_wait_bounds (compound : pystr) (w : World) :
  let w' := snd (run_patent_search compound w) in
  let n := List.length (search_patents compound) in
  (requests w <= requests w' <= requests w + 3 * n)%nat
  /\ total_wait w <= total_wait w' <= total_wait w + 4 * Z.of_nat n.
Proof.
  cbv zeta. destruct (run_world compound w) as [-> | ->]; [lia|].
  apply verify_loop_clock.
Qed.

Lemma get_patent_title_valid (pid : pystr) (w : World) (t : pystr) :
  fst (_get_patent_title pid w) = Some t -> _is_valid_title t = true.
Proof.
  intros H.
  destruct (attempts_cases pid 3 0 w) as (m & _ & _ & Hres); [lia|lia|].
  unfold _get_patent_title, Config.MAX_RETRIES in H. rewrite H in Hres.
  destruct Hres as [Hnone | (page & _ & Hres)]; [discriminate|].
  symmetry in Hres. now apply title_of_page_valid in Hres.
Qed.

Lemma make_verified_well_formed (pid claimed rel actual : pystr) :
  _is_valid_title actual = true ->
  well_formed_record (make_verified pid claimed rel actual).
Proof.
  intros Hv. unfold well_formed_record, make_verified. simpl.
  pose proof (ratio_bounds (strip (lower claimed)) (strip (lower actual)))
    as [H0 H1].
  repeat split; assumption.
Qed.

Lemma verify_loop_well_formed (compound : pystr) (patents : list candidate)
    (total i : Z) (acc out : list VerifiedPatent) (w w' : World) :
  List.Forall well_formed_record acc ->
  verify_loop compound total i patents acc w = (inr out, w') ->
  List.Forall well_formed_record out.
Proof.
  revert i acc w. induction patents as [|c rest IH]; intros i acc w Hacc H.
  - simpl in H. now injection H as <- _.
  - rewrite verify_loop_cons in H.
    destruct c as [pid claimed rel|]; [|discriminate].
    destruct (fst (_get_patent_title pid w)) as [actual|] eqn:Ef.
    + destruct claimed as [claimed|]; [|discriminate].
      cbv zeta in H. apply IH in H; [exact H|].
      apply List.Forall_app. split; [exact Hacc|].
      constructor; [|constructor].
      apply make_verified_well_formed. exact (get_patent_title_valid _ _ _ Ef).
    + now apply IH in H.
Qed.

(** X12: every record the verification returns is well formed: its title
    passed the plausibility heuristics, its score lies between 0 and 1, its
    [verified] is the test of that score against the threshold, and it has
    the language note exactly when its title has a character of the
    Chinese, kana or Hangul ranges. *)
Theorem returned_records_well_formed (patents : list candidate)
    (compound : pystr) (w w' : World) (out : list VerifiedPatent) :
  verify_patents patents compound w = (inr out, w') ->
  List.Forall well_formed_record out.
Proof.
  intros H. apply (verify_loop_well_formed _ _ _ _ [] _ _ _ ltac:(constructor) H).
Qed.

(** ** More on the output path *)

Lemma lstrip_incl (s : pystr) (c : Z) : In c (lstrip s) -> In c s.
Proof.
  drop_unused.
  induction s as [|x s IH]; simpl; [tauto|].
  destruct (isspace x); [intros H; right; now apply IH | tauto].
Qed.

Lemma rstrip_incl (s : pystr) (c : Z) : In c (rstrip s) -> In c s.
Proof.
  unfold rstrip. intros H. apply in_rev in H. apply lstrip_incl in H.
  now apply in_rev in H.
Qed.

Lemma safe_name_chars (compound : pystr) (c : Z) :
  In c (safe_name compound) -> kept c = true /\ c <> 32.
Proof.
  unfold safe_name, replace_char. fold kept. intros H.
  apply in_map_iff in H. destruct H as (x & Hx & Hin).
  apply rstrip_incl, filter_In in Hin. destruct Hin as [_ Hk].
  destruct (Z.eqb_spec x 32) as [He|Hne]; subst c.
  - split; [reflexivity | lia].
  - split; assumption.
Qed.

Lemma kept_not_separator (c : Z) :
  kept c = true -> c <> 47 /\ c <> 46 /\ c <> 92 /\ c <> 0.
Proof.
  intros H. repeat split; intros ->; vm_compute in H; discriminate.
Qed.

(** X14: the path [get_output_path] returns, when the directory can be
    made, is [results/<name>/verified_patents.json], or
    [results/verified_patents.json] when nothing of the compound name is
    kept, where [<name>] has no slash, backslash, dot, space or NUL: the
    path cannot leave the results directory. *)
Theorem output_path_shape (compound : pystr) :
  (forall c, In c (safe_name compound) ->
             c <> 47 /\ c <> 92 /\ c <> 46 /\ c <> 32 /\ c <> 0)
  /\ output_path compound
     = str "results/" ++ safe_name compound
       ++ (match safe_name compound with [] => [] | _ => [47] end)
       ++ str "verified_patents.json"
  /\ (forall w p,
        get_output_path compound w = inr p ->
        p = str "results/" ++ safe_name compound
            ++ (match safe_name compound with [] => [] | _ => [47] end)
            ++ str "verified_patents.json").
Proof.
  drop_unused.
  assert (Hchars : forall c, In c (safe_name compound) ->
                     c <> 47 /\ c <> 92 /\ c <> 46 /\ c <> 32 /\ c <> 0).
  { intros c Hc. apply safe_name_chars in Hc. destruct Hc as [Hk H32].
    apply kept_not_separator in Hk. tauto. }
  split; [exact Hchars|].
  assert (Hpath : output_path compound
                  = str "results/" ++ safe_name compound
                    ++ (match safe_name compound with [] => [] | _ => [47] end)
                    ++ str "verified_patents.json").
  { unfold output_path, output_dir.
    set (name := safe_name compound) in Hchars |- *.
    assert (Hdir : path_join Config.RESULTS_DIR name = str "results/" ++ name).
    { unfold path_join. destruct name as [|c name]; [reflexivity|].
      assert (c <> 47) by (apply Hchars; now left).
      simpl startswith. destruct (Z.eqb_spec c 47); [contradiction|].
      reflexivity. }
    rewrite Hdir. unfold path_join.
    change (startswith (str "verified_patents.json") [47]) with false.
    cbv iota.
    destruct name as [|c name]; [reflexivity|].
    rewrite rev_app_distr.
    destruct (rev (c :: name)) as [|x rest] eqn:Er.
    { apply (f_equal (@List.length Z)) in Er. rewrite length_rev in Er.
      discriminate. }
    assert (Hx : x <> 47).
    { apply Hchars. apply in_rev. rewrite Er. now left. }
    change ((x :: rest) ++ rev (str "results/"))
      with (x :: rest ++ rev (str "results/")).
    cbv iota. destruct (Z.eqb_spec x 47); [contradiction|].
    rewrite <- !app_assoc. reflexivity. }
  split; [exact Hpath|].
  intros w p. unfold get_output_path. cbv zeta. fold (output_path compound).
  destruct (os_fault w Makedirs _); [discriminate|].
  intros H. injection H as <-. exact Hpath.
Qed.

(** ** A string against itself *)

Lemma run_length_step (a : pystr) (i : nat) (j : Z) :
  run_length a i j = if cell a i j then 1 + prev_run a i (j - 1) else 0.
Proof. destruct i; reflexivity. Qed.

Lemma run_length_nonneg (a : pystr) (i : nat) (j : Z) : 0 <= run_length a i j.
Proof.
  revert j. induction i as [|i IH]; intros j; rewrite run_length_step;
    destruct (cell a _ j); simpl; try lia.
  specialize (IH (j - 1)). lia.
Qed.

Lemma cell_range (a : pystr) (i : nat) (j : Z) :
  cell a i j = true ->
  Z.of_nat i < len a /\ 0 <= j < len a
  /\ popular a (item a (Z.of_nat i)) = false
  /\ item a (Z.of_nat i) = item a j.
Proof.
  unfold cell. rewrite !andb_true_iff, negb_true_iff.
  intros ((((H1 & H2) & H3) & H4) & H5). apply Z.eqb_eq in H5.
  repeat split; try lia; assumption.
Qed.

Lemma cell_intro (a : pystr) (i : nat) (j : Z) :
  Z.of_nat i < len a -> 0 <= j < len a ->
  popular a (item a (Z.of_nat i)) = false ->
  item a (Z.of_nat i) = item a j ->
  cell a i j = true.
Proof.
  intros Hi Hj Hp He. unfold cell.
  rewrite !andb_true_iff, negb_true_iff.
  repeat split; try lia; try assumption.
Qed.

Lemma run_length_outside (a : pystr) (i : nat) (j : Z) :
  j < 0 -> run_length a i j = 0.
Proof.
  intros Hj. rewrite run_length_step.
  destruct (cell a i j) eqn:E; [|reflexivity].
  apply cell_range in E. lia.
Qed.

Lemma cell_sym (a : pystr) (i j : nat) :
  cell a i (Z.of_nat j) = cell a j (Z.of_nat i).
Proof.
  destruct (cell a i (Z.of_nat j)) eqn:E1.
  - apply cell_range in E1. destruct E1 as (Hi & Hj & Hp & He).
    symmetry. apply cell_intro; try lia.
    now rewrite <- He.
  - destruct (cell a j (Z.of_nat i)) eqn:E2; [|reflexivity].
    apply cell_range in E2. destruct E2 as (Hj & Hi & Hp & He).
    rewrite <- E1. apply cell_intro; try lia.
    now rewrite <- He.
Qed.

(** The run ending in a cell is the run ending in its mirror cell. *)
Lemma run_length_sym (a : pystr) (i j : nat) :
  run_length a i (Z.of_nat j) = run_length a j (Z.of_nat i).
Proof.
  revert j. induction i as [|i IH]; intros j.
  - rewrite !run_length_step, cell_sym.
    destruct (cell a j (Z.of_nat 0)); [|reflexivity].
    destruct j as [|j]; [reflexivity|]. simpl prev_run.
    now rewrite run_length_outside by lia.
  - rewrite !run_length_step, cell_sym.
    destruct (cell a j (Z.of_nat (S i))); [|reflexivity].
    destruct j as [|j].
    + simpl prev_run. now rewrite run_length_outside by lia.
    + simpl prev_run.
      replace (Z.of_nat (S j) - 1) with (Z.of_nat j) by lia.
      replace (Z.of_nat (S i) - 1) with (Z.of_nat i) by lia.
      now rewrite IH.
Qed.

(** No run ending in row [i] is longer than the one on the diagonal. *)
Lemma run_length_diagonal (a : pystr) (i : nat) (j : Z) :
  run_length a i j <= run_length a i (Z.of_nat i).
Proof.
  revert j. induction i as [|i IH]; intros j.
  - rewrite !run_length_step. destruct (cell a 0 j) eqn:E.
    + apply cell_range in E. destruct E as (Hi & Hj & Hp & He).
      rewrite cell_intro by (try lia; assumption || reflexivity). simpl. lia.
    + destruct (cell a 0 (Z.of_nat 0)); simpl; lia.
  - rewrite !run_length_step. destruct (cell a (S i) j) eqn:E.
    + apply cell_range in E. destruct E as (Hi & Hj & Hp & He).
      rewrite cell_intro by (try lia; assumption || reflexivity).
      simpl prev_run.
      replace (Z.of_nat (S i) - 1) with (Z.of_nat i) by lia.
      specialize (IH (j - 1)). lia.
    + pose proof (run_length_nonneg a (S i) (Z.of_nat (S i))) as H.
      rewrite run_length_step in H. exact H.
Qed.

Lemma ascending_from_ge (lo : Z) (js : list Z) (x : Z) :
  ascending_from lo js -> In x js -> lo <= x.
Proof.
  revert lo. induction js as [|j js IH]; intros lo H Hin; [destruct Hin|].
  destruct H as [Hj Hrest]. destruct Hin as [<- | Hin]; [exact Hj|].
  specialize (IH _ Hrest Hin). lia.
Qed.

Lemma item_head (x : Z) (b : pystr) : item (x :: b) 0 = x.
Proof. reflexivity. Qed.

Lemma item_cons (x : Z) (b : pystr) (k : Z) :
  0 < k -> item (x :: b) k = item b (k - 1).
Proof.
  intros Hk. unfold item.
  replace (Z.to_nat k) with (S (Z.to_nat (k - 1))) by lia. reflexivity.
Qed.

Lemma len_cons (x : Z) (b : pystr) : len (x :: b) = 1 + len b.
Proof. unfold len. simpl List.length. lia. Qed.

(** [indices elt i0 b] lists the positions of [elt] in [b], counted from
    [i0], in increasing order. *)
Lemma indices_spec (elt : Z) (b : pystr) (i0 j : Z) :
  In j (indices elt i0 b)
  <-> i0 <= j < i0 + len b /\ item b (j - i0) = elt.
Proof.
  drop_unused.
  revert i0. induction b as [|x b IH]; intros i0.
  - simpl. unfold len. simpl. split; [tauto | lia].
  - simpl indices. rewrite in_app_iff, IH, len_cons.
    destruct (Z.eq_dec j i0) as [->|Hne].
    + rewrite Z.sub_diag, item_head.
      destruct (Z.eqb_spec x elt) as [->|Hx]; simpl.
      * split; [intros _; split; [unfold len; lia | reflexivity]|].
        intros _. now left; left.
      * split; [intros [[]|[H _]]; lia | intros [_ H]; contradiction].
    + split.
      * intros [H | [H1 H2]].
        -- destruct (x =? elt); simpl in H; [|tauto]. destruct H; [lia|tauto].
        -- split; [lia|]. rewrite item_cons by lia.
           now replace (j - i0 - 1) with (j - (i0 + 1)) by lia.
      * intros [H1 H2]. right. split; [lia|].
        rewrite item_cons in H2 by lia.
        now replace (j - i0 - 1) with (j - (i0 + 1)) in H2 by lia.
Qed.

Lemma indices_ascending (elt : Z) (b : pystr) (i0 : Z) :
  ascending_from i0 (indices elt i0 b).
Proof.
  revert i0. induction b as [|x b IH]; intros i0; [exact I|].
  simpl indices.
  assert (Hup : forall lo js, ascending_from (lo + 1) js ->
                              ascending_from lo js).
  { intros lo js. destruct js as [|j js]; [trivial|].
    simpl. intros [H1 H2]. split; [lia | exact H2]. }
  destruct (x =? elt); simpl.
  - split; [lia | apply IH].
  - apply Hup, IH.
Qed.

Lemma b2j_popular (b : pystr) (elt : Z) :
  b2j b elt = if popular b elt then [] else indices elt 0 b.
Proof. reflexivity. Qed.

(** The positions the scan of row [i] goes through are the cells of the
    row. *)
Lemma row_cells (a : pystr) (i : nat) (j : Z) :
  Z.of_nat i < len a ->
  In j (b2j a (item a (Z.of_nat i))) <-> cell a i j = true.
Proof.
  intros Hi. rewrite b2j_popular.
  destruct (popular a (item a (Z.of_nat i))) eqn:Ep.
  - split; [intros [] | intros H; apply cell_range in H].
    destruct H as (_ & _ & Hp & _). congruence.
  - rewrite indices_spec, Z.sub_0_r. split.
    + intros [Hj He]. apply cell_intro; try lia. exact Ep.
    + intros H. apply cell_range in H. destruct H as (_ & Hj & _ & He).
      split; [lia | now symmetry].
Qed.

Lemma row_ascending (a : pystr) (i : nat) :
  ascending_from 0 (b2j a (item a (Z.of_nat i))).
Proof.
  rewrite b2j_popular. destruct (popular a _); [exact I|].
  apply indices_ascending.
Qed.

(** One row of the scan of a string against itself: the best block stays
    on the diagonal.  A longer run can only be met in the column of the row
    itself: to the left of it the run is the mirror of one met in an earlier
    row, to the right of it the run is no longer than the diagonal one, met
    before. *)
Lemma scan_row_diag (a : pystr) (i : nat) (j2len : gmap Z Z) (js : list Z)
    (lo : Z) (best : Match) (newj2len : gmap Z Z) :
  (forall j, default 0 (j2len !! j) = prev_run a i j) ->
  (forall j, In j js -> cell a i j = true) ->
  ascending_from lo js ->
  m_a best = m_b best ->
  (forall i' j, (i' < i)%nat -> run_length a i' j <= m_size best) ->
  (~ In (Z.of_nat i) js -> run_length a i (Z.of_nat i) <= m_size best) ->
  let out := fst (scan_row (Z.of_nat i) 0 (len a) j2len js best newj2len) in
  m_a out = m_b out
  /\ m_size best <= m_size out
  /\ run_length a i (Z.of_nat i) <= m_size out.
Proof.
  intros Hprev. revert lo best newj2len.
  induction js as [|j js IH]; intros lo best newj2len Hcells Hasc Hd Hg Hi.
  - simpl. split; [exact Hd|]. split; [lia | now apply Hi].
  - destruct Hasc as [Hlo Hasc].
    assert (Hc : cell a i j = true) by (apply Hcells; now left).
    pose proof (cell_range _ _ _ Hc) as (Hin & Hj & _ & _).
    assert (Hk : default 0 (j2len !! (j - 1)) + 1 = run_length a i j).
    { rewrite run_length_step, Hc, Hprev. lia. }
    simpl scan_row.
    destruct (Z.ltb_spec j 0) as [?|_]; [lia|].
    destruct (j >=? len a) eqn:Ehi; [lia|].
    rewrite Hk.
    assert (Hrest : forall x, In x js -> j < x).
    { intros x Hx. pose proof (ascending_from_ge _ _ _ Hasc Hx). lia. }
    set (k := run_length a i j) in *.
    set (best' := if k >? m_size best
                  then mkMatch (Z.of_nat i - k + 1) (j - k + 1) k
                  else best).
    assert (Hsize : m_size best <= m_size best').
    { unfold best'. destruct (Z.gtb_spec k (m_size best)); simpl; lia. }
    assert (Hdiag : m_a best' = m_b best').
    { unfold best'. destruct (Z.gtb_spec k (m_size best)) as [Hgt|_];
        [|exact Hd].
      simpl. assert (j = Z.of_nat i); [|lia].
      destruct (Z.lt_trichotomy j (Z.of_nat i)) as [Hlt | [Heq | Hgt']];
        [|exact Heq|].
      - exfalso. unfold k in Hgt.
        replace j with (Z.of_nat (Z.to_nat j)) in Hgt by lia.
        rewrite run_length_sym in Hgt.
        pose proof (Hg (Z.to_nat j) (Z.of_nat i) ltac:(lia)). lia.
      - exfalso.
        assert (Hni : ~ In (Z.of_nat i) (j :: js)).
        { intros [E | Hx]; [lia|]. apply Hrest in Hx. lia. }
        pose proof (Hi Hni). pose proof (run_length_diagonal a i j).
        unfold k in Hgt. lia. }
    assert (Hdone : ~ In (Z.of_nat i) js ->
                    run_length a i (Z.of_nat i) <= m_size best').
    { intros Hni. destruct (Z.eq_dec j (Z.of_nat i)) as [E|Hne].
      - unfold best'. rewrite <- E. fold k.
        destruct (Z.gtb_spec k (m_size best)); simpl; lia.
      - assert (Hni' : ~ In (Z.of_nat i) (j :: js))
          by (intros [E | Hx]; [congruence | contradiction]).
        pose proof (Hi Hni'). lia. }
    destruct (IH (j + 1) best' (<[j:=k]> newj2len)) as (H1 & H2 & H3).
    + intros x Hx. apply Hcells. now right.
    + exact Hasc.
    + exact Hdiag.
    + intros i' x Hi'. pose proof (Hg i' x Hi'). lia.
    + exact Hdone.
    + cbv zeta. split; [exact H1|]. split; [lia | exact H3].
Qed.

(** The dictionary a row leaves: an entry for each position gone through,
    one more than the entry of the row before at the position before. *)
Lemma scan_row_map (i bhi : Z) (j2len : gmap Z Z) (js : list Z)
    (best : Match) (newj2len : gmap Z Z) (x : Z) :
  (forall j, In j js -> 0 <= j < bhi) ->
  snd (scan_row i 0 bhi j2len js best newj2len) !! x
  = if in_dec Z.eq_dec x js
    then Some (default 0 (j2len !! (x - 1)) + 1)
    else newj2len !! x.
Proof.
  revert best newj2len. induction js as [|j js IH]; intros best newj2len Hr;
    [reflexivity|].
  assert (Hj : 0 <= j < bhi) by (apply Hr; now left).
  simpl scan_row.
  destruct (Z.ltb_spec j 0) as [?|_]; [lia|].
  destruct (j >=? bhi) eqn:Ehi; [lia|].
  rewrite IH by (intros y Hy; apply Hr; now right).
  destruct (in_dec Z.eq_dec x js) as [Hin|Hnin];
    destruct (in_dec Z.eq_dec x (j :: js)) as [Hin'|Hnin']; try reflexivity.
  - exfalso. apply Hnin'. now right.
  - destruct Hin' as [->|Hin']; [|contradiction].
    now rewrite lookup_insert_eq.
  - rewrite lookup_insert_ne; [reflexivity|].
    intros ->. apply Hnin'. now left.
Qed.

Lemma row_exact (a : pystr) (i : nat) (j2len : gmap Z Z) (best : Match)
    (x : Z) :
  Z.of_nat i < len a ->
  (forall j, default 0 (j2len !! j) = prev_run a i j) ->
  default 0 (snd (scan_row (Z.of_nat i) 0 (len a) j2len
                    (b2j a (item a (Z.of_nat i))) best ∅) !! x)
  = run_length a i x.
Proof.
  intros Hi Hprev. rewrite scan_row_map.
  - rewrite run_length_step.
    destruct (in_dec Z.eq_dec x (b2j a (item a (Z.of_nat i)))) as [Hin|Hnin].
    + apply (row_cells a i x Hi) in Hin. rewrite Hin, Hprev. simpl. lia.
    + rewrite lookup_empty. simpl.
      destruct (cell a i x) eqn:E; [|reflexivity].
      exfalso. apply Hnin. now apply (row_cells a i x Hi).
  - intros j Hj. apply (row_cells a i j Hi) in Hj.
    apply cell_range in Hj. lia.
Qed.

(** The scan of a string against itself ends with a block on the
    diagonal. *)
Lemma scan_rows_diag (a : pystr) (n i : nat) (j2len : gmap Z Z)
    (best : Match) :
  (Z.of_nat i + Z.of_nat n <= len a) ->
  (forall j, default 0 (j2len !! j) = prev_run a i j) ->
  m_a best = m_b best ->
  0 <= m_size best ->
  (forall i' j, (i' < i)%nat -> run_length a i' j <= m_size best) ->
  let out := scan_rows a a 0 (len a) n (Z.of_nat i) j2len best in
  m_a out = m_b out.
Proof.
  revert i j2len best.
  induction n as [|n IH]; intros i j2len best Hn Hprev Hd H0 Hg; [exact Hd|].
  simpl scan_rows.
  assert (Hi : Z.of_nat i < len a) by lia.
  pose proof (scan_row_diag a i j2len (b2j a (item a (Z.of_nat i))) 0 best ∅
                Hprev (fun j H => proj1 (row_cells a i j Hi) H)
                (row_ascending a i) Hd Hg) as Hrow.
  pose proof (fun x => row_exact a i j2len best x Hi Hprev) as Hmap.
  destruct (scan_row (Z.of_nat i) 0 (len a) j2len
              (b2j a (item a (Z.of_nat i))) best ∅) as [best1 new1].
  simpl in Hrow, Hmap.
  destruct Hrow as (Hd1 & Hs1 & Hi1).
  { intros Hni. rewrite run_length_step.
    destruct (cell a i (Z.of_nat i)) eqn:E; [|exact H0].
    exfalso. apply Hni. now apply (row_cells a i _ Hi). }
  replace (Z.of_nat i + 1) with (Z.of_nat (S i)) by lia.
  apply IH; [lia | exact Hmap | exact Hd1 | lia |].
  intros i' j Hi'. destruct (Nat.eq_dec i' i) as [->|Hne].
  - pose proof (run_length_diagonal a i j). lia.
  - pose proof (Hg i' j ltac:(lia)). lia.
Qed.

Lemma extend_left_diag (a : pystr) (fuel : nat) (k : Z) :
  extend_left a a 0 0 fuel (mkMatch (Z.of_nat fuel) (Z.of_nat fuel) k)
  = mkMatch 0 0 (k + Z.of_nat fuel).
Proof.
  revert k. induction fuel as [|fuel IH]; intros k.
  - simpl. now rewrite Z.add_0_r.
  - cbn [extend_left m_a m_b m_size].
    destruct (Z.gtb_spec (Z.of_nat (S fuel)) 0) as [_|?]; [|lia].
    rewrite Z.eqb_refl. cbn [andb].
    replace (Z.of_nat (S fuel) - 1) with (Z.of_nat fuel) by lia.
    rewrite IH. f_equal. lia.
Qed.

Lemma extend_right_diag (a : pystr) (n : Z) (fuel : nat) (s : Z) :
  s + Z.of_nat fuel = n ->
  extend_right a a n n fuel (mkMatch 0 0 s) = mkMatch 0 0 n.
Proof.
  revert s. induction fuel as [|fuel IH]; intros s Hs.
  - simpl. f_equal. lia.
  - cbn [extend_right m_a m_b m_size]. rewrite Z.add_0_l.
    destruct (Z.ltb_spec s n) as [_|?]; [|lia].
    rewrite Z.eqb_refl. cbn [andb]. apply IH. lia.
Qed.

(** The longest block of a string against itself is the whole string. *)
Lemma find_longest_match_self (a : pystr) :
  find_longest_match a a 0 (len a) 0 (len a) = mkMatch 0 0 (len a).
Proof.
  assert (Hlen : 0 <= len a) by (unfold len; lia).
  unfold find_longest_match.
  assert (Hdiag : m_a (scan_rows a a 0 (len a) (Z.to_nat (len a - 0)) 0 ∅
                         (mkMatch 0 0 0))
                  = m_b (scan_rows a a 0 (len a) (Z.to_nat (len a - 0)) 0 ∅
                           (mkMatch 0 0 0))).
  { apply (scan_rows_diag a (Z.to_nat (len a - 0)) 0 ∅ (mkMatch 0 0 0)).
    - lia.
    - intros j. now rewrite lookup_empty.
    - reflexivity.
    - simpl. lia.
    - intros i' j Hi'. lia. }
  assert (Hin : block_in 0 (0 + Z.of_nat (Z.to_nat (len a - 0))) 0 (len a)
                  (scan_rows a a 0 (len a) (Z.to_nat (len a - 0)) 0 ∅
                     (mkMatch 0 0 0))).
  { apply scan_rows_ok.
    - lia.
    - intros j x Hx. now rewrite lookup_empty in Hx.
    - unfold block_in. simpl. lia. }
  destruct (scan_rows a a 0 (len a) (Z.to_nat (len a - 0)) 0 ∅
              (mkMatch 0 0 0)) as [d d' k].
  simpl in Hdiag. subst d'. unfold block_in in Hin. simpl in Hin.
  destruct Hin as (Hd0 & Hdk & _ & _ & Hk).
  assert (Hl : extend_left a a 0 0 (Z.to_nat d) (mkMatch d d k)
               = mkMatch 0 0 (k + d)).
  { pose proof (extend_left_diag a (Z.to_nat d) k) as H.
    now rewrite Z2Nat.id in H by lia. }
  cbn [m_a m_b m_size]. rewrite Z.sub_0_r, !Hl. cbn [m_a m_size].
  apply extend_right_diag. lia.
Qed.

Lemma matches_self (a : pystr) : matches a a = len a.
Proof.
  unfold matches.
  pose proof (get_matching_blocks_run a a) as Hrun.
  unfold blocks_fuel in Hrun.
  destruct (Z.to_nat (2 * len a + 1)) as [|fuel] eqn:Ef;
    [unfold len in Ef; lia|].
  simpl in Hrun. rewrite find_longest_match_self in Hrun. simpl in Hrun.
  destruct (Z.eqb_spec (len a) 0) as [E|E].
  - destruct fuel; simpl in Hrun; injection Hrun as <-; simpl; lia.
  - rewrite Z.add_0_l, Z.ltb_irrefl in Hrun. simpl in Hrun.
    destruct fuel; simpl in Hrun; injection Hrun as <-; simpl; lia.
Qed.

(** X15: two titles that are the same once lower-cased and stripped score
    1, so the record is marked verified: differences of case and of
    surrounding white space do not show in the score. *)
Theorem same_titles_score_one (pid title1 rel title2 : pystr) :
  strip (lower title1) = strip (lower title2) ->
  (_calculate_similarity title1 title2 == 1)%Q
  /\ verified (make_verified pid title1 rel title2) = true.
Proof.
  intros Heq.
  assert (Hone : (_calculate_similarity title1 title2 == 1)%Q).
  { unfold _calculate_similarity, ratio. rewrite Heq, matches_self.
    destruct (Z.eqb_spec (len (strip (lower title2))
                          + len (strip (lower title2))) 0) as [_|Hne];
      [reflexivity|].
    unfold Qeq. simpl. rewrite Z2Pos.id by (unfold len in *; lia). lia. }
  split; [exact Hone|].
  simpl. apply Qle_bool_iff. rewrite Hone.
  unfold Config.SIMILARITY_THRESHOLD, Qle. simpl. lia.
Qed.

(** ** Titles with nothing in common, and the pauses of the loop *)

(** X16: two titles that, once lower-cased and stripped, have no character
    in common and are not both empty score 0, and the record is not marked
    verified. *)
Theorem disjoint_titles_score_zero (pid title1 rel title2 : pystr) :
  disjoint (strip (lower title1)) (strip (lower title2)) ->
  strip (lower title1) <> [] \/ strip (lower title2) <> [] ->
  (_calculate_similarity title1 title2 == 0)%Q
  /\ verified (make_verified pid title1 rel title2) = false.
Proof.
  intros Hd Hne.
  assert (Hsim : exists p, _calculate_similarity title1 title2 = (0 # p)%Q).
  { unfold _calculate_similarity, ratio. rewrite (matches_disjoint _ _ Hd).
    destruct (Z.eqb_spec (len (strip (lower title1))
                          + len (strip (lower title2))) 0) as [E|_];
      [|now eexists].
    exfalso. unfold len in E.
    destruct (strip (lower title1)), (strip (lower title2));
      simpl in E; try lia. destruct Hne; congruence. }
  destruct Hsim as [p Hp]. simpl. rewrite Hp. split; [reflexivity|].
  unfold Qle_bool, Config.SIMILARITY_THRESHOLD. simpl.
  destruct (Z.leb_spec (Z.pos (8 * p)) 0); [lia | reflexivity].
Qed.








(** ** The clean-up of the heading *)

Lemma startswith_spec (s pre : pystr) :
  startswith s pre = true <-> exists q, s = pre ++ q.
Proof.
  revert s. induction pre as [|p pre IH]; intros s.
  - simpl. split; [intros _; now exists s | reflexivity].
  - destruct s as [|c s]; simpl.
    + split; [discriminate | intros [q Hq]; discriminate].
    + rewrite andb_true_iff, IH, Z.eqb_eq. split.
      * intros [-> [q ->]]. now exists q.
      * intros [q [= -> ->]]. split; [reflexivity | now exists q].
Qed.

Lemma split_head_at (sep s r : pystr) :
  ~ occurs_before sep (s ++ sep ++ r) (List.length s) ->
  split_head sep (s ++ sep ++ r) = s.
Proof.
  induction s as [|c s IH]; intros Hno.
  - simpl. destruct (sep ++ r) as [|x xs] eqn:E; [reflexivity|].
    simpl. replace (startswith (x :: xs) sep) with true; [reflexivity|].
    symmetry. rewrite <- E. apply startswith_spec. now exists r.
  - simpl app. simpl split_head.
    destruct (startswith (c :: s ++ sep ++ r) sep) eqn:E.
    + exfalso. apply startswith_spec in E. destruct E as [q Hq].
      apply Hno. exists [], q. simpl. split; [exact Hq | lia].
    + f_equal. apply IH. intros (p & q & Hpq & Hlen).
      apply Hno. exists (c :: p), q. simpl. split; [now rewrite Hpq | lia].
Qed.

Lemma remove_from_skip (old u s : pystr) :
  remove_from old (List.length u) (u ++ s) = remove_from old O s.
Proof. induction u as [|x u IH]; [reflexivity | exact IH]. Qed.

Lemma remove_all_prefix (old s : pystr) :
  old <> [] -> remove_all old (old ++ s) = remove_all old s.
Proof.
  intros Hne. destruct old as [|c old]; [congruence|].
  unfold remove_all. simpl app. cbn [remove_from].
  change (c :: old ++ s) with ((c :: old) ++ s).
  rewrite (proj2 (startswith_spec ((c :: old) ++ s) (c :: old)))
    by (now exists s).
  simpl Nat.pred. apply remove_from_skip.
Qed.

Lemma remove_all_none (old s : pystr) :
  ~ occurs old s -> remove_all old s = s.
Proof.
  unfold remove_all. induction s as [|c s IH]; intros Hno; [reflexivity|].
  cbn [remove_from].
  destruct (startswith (c :: s) old) eqn:E.
  - exfalso. apply startswith_spec in E. destruct E as [q Hq].
    apply Hno. now exists [], q.
  - f_equal. apply IH. intros (p & q & Hpq). apply Hno.
    exists (c :: p), q. simpl. now rewrite Hpq.
Qed.

(** X18: the clean-up of the heading gives back the title of a heading of
    the form "<id> - <title> - Google Patents...": when the site suffix
    does not occur earlier in the heading and "<id> - " does not occur in
    the title, the result is the title, stripped. *)
Theorem heading_cleanup (patent_id t r : pystr) :
  let shown := patent_id ++ str " - " ++ t in
  ~ occurs_before (str " - Google Patents")
      (shown ++ str " - Google Patents" ++ r) (List.length shown) ->
  ~ occurs (patent_id ++ str " - ") t ->
  clean_heading patent_id (shown ++ str " - Google Patents" ++ r) = strip t.
Proof.
  intros shown Hsuffix Hid. unfold clean_heading.
  rewrite (split_head_at _ _ _ Hsuffix). unfold shown.
  rewrite app_assoc, remove_all_prefix.
  - now rewrite (remove_all_none _ _ Hid).
  - intros E. apply (f_equal (@List.length Z)) in E.
    rewrite length_app in E. simpl in E. lia.
Qed.

End Unicode.


(** * The properties on the sample environments *)

Lemma no_unicode_ok : lower_table_ok no_unicode.
Proof.
  intros before c after Hc Hin. apply abstract_letter in Hin.
  unfold is_ascii in Hc. lia.
Qed.

Lemma contains_non_english_iff_witness :
  Forall is_ascii (str "Synthesis of X")
  /\ _contains_non_english (str "Synthesis of X") = false.
Proof.
  assert (H : Forall is_ascii (str "Synthesis of X")).
  { apply Forall_forall. intros c Hc. apply list_elem_of_In in Hc.
    unfold is_ascii. simpl in Hc. lia. }
  split; [exact H|].
  exact (proj2 (contains_non_english_iff (str "Synthesis of X")) H).
Defined.

Lemma is_valid_title_iff_witness :
  lower_table_ok no_unicode /\ _is_valid_title no_unicode plain_title = true.
Proof.
  split; [exact no_unicode_ok|].
  exact (proj2 (is_valid_title_iff no_unicode no_unicode_ok)).
Defined.

Lemma no_fault_ok : no_store_error no_fault dump_fine.
Proof. split; reflexivity. Qed.

Lemma no_fault_no_torn_write : no_torn_write no_fault dump_fine.
Proof. split; reflexivity. Qed.

Lemma same_kept_same_path_witness :
  List.filter (kept no_alnum) (str "a,b") = List.filter (kept no_alnum) (str "ab")
  /\ output_path no_alnum (str "a,b") = output_path no_alnum (str "ab")
  /\ get_output_path no_alnum no_fault (str "a,b") world0
     = get_output_path no_alnum no_fault (str "ab") world0
  /\ _save_verified_patent no_alnum no_fault dump_fine (record "US1")
       (str "ab")
       (_save_verified_patent no_alnum no_fault dump_fine (record "US1")
          (str "a,b") world0)
     = _save_verified_patent no_alnum no_fault dump_fine (record "US1")
         (str "a,b") world0.
Proof.
  assert (H : List.filter (kept no_alnum) (str "a,b")
              = List.filter (kept no_alnum) (str "ab")) by reflexivity.
  destruct (same_kept_same_path no_alnum no_fault dump_fine
              (str "a,b") (str "ab") H) as (_ & Hp & Hg & _ & _ & Hs).
  split; [exact H|]. split; [exact Hp|]. split; [apply Hg|].
  apply Hs. exact no_fault_no_torn_write.
Defined.



Lemma fetch_404_stops_other_errors_retry_witness :
  _get_patent_title no_unicode unavailable_then_404 (str "US1") world0
  = (None, mkWorld ∅ 2 [1])
  /\ _get_patent_title no_unicode unreachable (str "US1") world0
     = (None, mkWorld ∅ 3 [1; 1]).
Proof.
  split.
  - apply (proj1 (fetch_404_stops_other_errors_retry no_unicode
                    unavailable_then_404 (str "US1") world0) 1%nat).
    + lia.
    + intros i Hi. assert (i = O) as -> by lia. simpl. lia.
    + reflexivity.
  - apply (proj2 (fetch_404_stops_other_errors_retry no_unicode
                    unreachable (str "US1") world0)).
    intros i _. exact I.
Defined.





Lemma handler_reports_nothing_witness :
  let run :=
    run_patent_search no_unicode no_alnum no_fault dump_fine
      (serve page_tide) then_malformed (str "sk-key") (str "X") world0 in
  success (fst run) = false
  /\ patents_found (fst run) = 0
  /\ patents_verified (fst run) = 0
  /\ run_verified_patents (fst run) = []
  /\ List.length (stored no_alnum (str "X") (snd run)) = 1%nat.
Proof.
  intros run.
  destruct (handler_reports_nothing no_unicode no_alnum no_fault dump_fine
              (serve page_tide)
              then_malformed (str "sk-key") (str "X") world0
              (snd (verify_patents no_unicode no_alnum no_fault dump_fine
                      (serve page_tide)
                      (then_malformed (str "X")) (str "X") world0))
              AttributeError)
    as (Hw & Hs & Hf & Hv & Hl & _).
  - discriminate.
  - discriminate.
  - left. vm_compute. reflexivity.
  - fold run in Hw, Hs, Hf, Hv, Hl.
    repeat (split; [assumption|]). rewrite Hw. vm_compute. reflexivity.
Defined.



(** C5, as it is written, fails: the score of "tide" against "diet" is 1/4,
    that of "diet" against "tide" is 1/2. *)
Lemma similarity_depends_on_order :
  (_calculate_similarity no_unicode (str "tide") (str "diet") == 1 # 4)%Q
  /\ (_calculate_similarity no_unicode (str "diet") (str "tide") == 1 # 2)%Q
  /\ ~ (forall a b : pystr,
          (_calculate_similarity no_unicode a b
           == _calculate_similarity no_unicode b a)%Q).
Proof.
  split; [reflexivity|]. split; [reflexivity|].
  intros H. specialize (H (str "tide") (str "diet")).
  vm_compute in H. discriminate H.
Qed.

Lemma similarity_symmetric_when_witness :
  disjoint (strip (lower no_unicode (str " ABC ")))
           (strip (lower no_unicode (str "xyz")))
  /\ _calculate_similarity no_unicode (str " ABC ") (str "xyz")
     = _calculate_similarity no_unicode (str "xyz") (str " ABC ").
Proof.
  assert (H : disjoint (strip (lower no_unicode (str " ABC ")))
                       (strip (lower no_unicode (str "xyz")))).
  { intros c Ha Hb. vm_compute in Ha, Hb. lia. }
  split; [exact H|].
  apply (similarity_symmetric_when no_unicode). right. exact H.
Defined.

(** * The further properties on the sample environments *)



Lemma fetched_title_is_plausible_witness :
  _get_patent_title no_unicode (serve page_tide) (str "US1") world0
  = (Some (str "tide"), mkWorld ∅ 1 [])
  /\ _is_valid_title no_unicode (str "tide") = true.
Proof.
  assert (H : _get_patent_title no_unicode (serve page_tide) (str "US1") world0
              = (Some (str "tide"), mkWorld ∅ 1 [])) by reflexivity.
  split; [exact H|].
  exact (fetched_title_is_plausible no_unicode (serve page_tide) (str "US1")
           world0 (mkWorld ∅ 1 []) (str "tide") H).
Defined.


Lemma missing_title_never_verifies_witness :
  strip (lower no_unicode []) = []
  /\ verified (make_verified no_unicode (str "US1") [] (str "High")
                (str "tide")) = false.
Proof.
  split; [reflexivity|].
  apply (missing_title_never_verifies no_unicode (str "US1") []
           (str "High") (str "tide")); [reflexivity|].
  vm_compute. discriminate.
Defined.

Lemma run_touches_one_file_witness :
  str "notes.txt" <> output_path no_alnum (str "X")
  /\ fs (snd (run_patent_search no_unicode no_alnum no_fault dump_fine (serve page_tide)
                one_candidate (str "sk-key") (str "X") world_notes))
       !! str "notes.txt"
     = Some NotJson.
Proof.
  assert (H : str "notes.txt" <> output_path no_alnum (str "X"))
    by (vm_compute; discriminate).
  split; [exact H|].
  rewrite (run_touches_one_file no_unicode no_alnum no_fault dump_fine (serve page_tide)
             one_candidate (str "sk-key") (str "X") world_notes
             (str "notes.txt") H).
  reflexivity.
Defined.


Lemma torn_write_loses_records_witness :
  let r := mkVerified (str "CN2") (str "A title") [0xd800] 1 true None in
  let w1 :=
    _save_verified_patent no_alnum no_fault surrogate_raises r (str "X")
      world_one_record in
  stored no_alnum (str "X") world_one_record = [record "US1"]
  /\ stored no_alnum (str "X") w1 = []
  /\ fs (_save_verified_patent no_alnum no_fault surrogate_raises
           (record "EP3") (str "X") w1)
       !! output_path no_alnum (str "X")
     = Some (ResultJson (str "X") [record "EP3"]).
Proof.
  intros r w1.
  destruct (torn_write_loses_records no_alnum no_fault surrogate_raises
              r (record "EP3") (str "X") world_one_record)
    as (_ & Hgone & Hnext).
  - reflexivity.
  - reflexivity.
  - reflexivity.
  - unfold usable. vm_compute. discriminate.
  - intros Hin. apply list_elem_of_In in Hin. vm_compute in Hin.
    destruct Hin as [Hin | []]. discriminate Hin.
  - left. intros c l. unfold surrogate_raises.
    rewrite existsb_app. simpl. rewrite !orb_true_r. reflexivity.
  - split; [reflexivity|]. split; [exact Hgone|].
    apply Hnext; [repeat split | reflexivity].
Defined.


Lemma returned_records_well_formed_witness :
  List.Forall (well_formed_record no_unicode)
    [make_verified no_unicode (str "US1") (str "tide") (str "High")
       (str "tide");
     make_verified no_unicode (str "US1") (str "diet") (str "Medium")
       (str "tide")].
Proof.
  apply (returned_records_well_formed no_unicode no_alnum no_fault dump_fine (serve page_tide)
           (twice (str "X")) (str "X") world0
           (snd (verify_patents no_unicode no_alnum no_fault dump_fine (serve page_tide)
                   (twice (str "X")) (str "X") world0))).
  vm_compute. reflexivity.
Defined.

Lemma same_titles_score_one_witness :
  strip (lower no_unicode (str " Foo ")) = strip (lower no_unicode (str "foo"))
  /\ verified (make_verified no_unicode (str "US1") (str " Foo ")
                (str "High") (str "foo")) = true.
Proof.
  split; [reflexivity|].
  apply (same_titles_score_one no_unicode (str "US1") (str " Foo ")
           (str "High") (str "foo")).
  reflexivity.
Defined.

Lemma disjoint_titles_score_zero_witness :
  (_calculate_similarity no_unicode (str "abc") (str "xyz") == 0)%Q
  /\ verified (make_verified no_unicode (str "US1") (str "abc")
                (str "High") (str "xyz")) = false.
Proof.
  apply (disjoint_titles_score_zero no_unicode (str "US1") (str "abc")
           (str "High") (str "xyz")).
  - intros c Ha Hb. vm_compute in Ha, Hb. lia.
  - left. vm_compute. discriminate.
Defined.


Lemma heading_cleanup_witness :
  clean_heading (str "US1") (str "US1 - Real title - Google Patents")
  = str "Real title".
Proof.
  apply (heading_cleanup (str "US1") (str "Real title") []).
  - intros (p & q & Hpq & Hlen).
    do 16 (destruct p as [|? p]; [discriminate Hpq|]).
    simpl in Hlen. lia.
  - intros (p & q & Hpq).
    do 11 (destruct p as [|? p]; [discriminate Hpq|]).
    discriminate Hpq.
Defined.
